(** * SnypsoTranscriptApp: the transcript core of [app.py] / [app_vibbli.py]

    A shallow embedding of the two (near identical) Streamlit front ends:
    the helpers [download_vtt], [vtt_to_lines], [clean_lines],
    [strip_timestamps] and [save_transcript], the batch form and its loop,
    the password gate [check_password], and the summary panel of
    [app_vibbli.py].  What the code asks of yt-dlp, [webvtt], the file
    system, [os.path] and the chat service is a parameter.

    Python [str] values are modelled as [list ascii]: a character is a code
    point below 256.  On these code points [str.isspace] holds for
    U+0009..U+000D, U+001C..U+0020, U+0085 and U+00A0, and the regular
    expression class [\d] holds for the digits 0..9 only. *)

From Stdlib Require Import Ascii String.
From stdpp Require Import base decidable list strings gmap.

Local Open Scope list_scope.

Abbreviation str := (list ascii).

(** A string literal of the source. *)
Definition lit (s : string) : str := list_ascii_of_string s.

(** ** Characters and the [str] methods used by the source *)

Module Py.

(** [c.isspace()] on a one character string. *)
Definition isspace (c : ascii) : bool :=
  let n := N_of_ascii c in
  ((9 <=? n) && (n <=? 13) || (28 <=? n) && (n <=? 32)
   || (n =? 133) || (n =? 160))%N.

(** The class [\d] of [re]. *)
Definition isdigit (c : ascii) : bool :=
  let n := N_of_ascii c in ((48 <=? n) && (n <=? 57))%N.

(** [s.lstrip()]. *)
Fixpoint lstrip (s : str) : str :=
  match s with
  | [] => []
  | c :: s' => if isspace c then lstrip s' else s
  end.

(** [s.rstrip()]. *)
Definition rstrip (s : str) : str := reverse (lstrip (reverse s)).

(** [s.strip()]: whitespace removed at both ends. *)
Definition strip (s : str) : str := rstrip (lstrip s).

(** [s.startswith(p)]. *)
Fixpoint startswith (s p : str) {struct p} : bool :=
  match p, s with
  | [], _ => true
  | _ :: _, [] => false
  | a :: p', b :: s' => bool_decide (a = b) && startswith s' p'
  end.

(** [sub in s]: [sub] occurs in [s] as a contiguous run of characters. *)
Fixpoint contains (s sub : str) : bool :=
  startswith s sub ||
  match s with
  | [] => false
  | _ :: s' => contains s' sub
  end.

(** [s.lower()]: on the code points below 256 the upper case letters are A..Z
    and U+00C0..U+00DE without the multiplication sign U+00D7. *)
Definition lower (s : str) : str :=
  (λ c, let n := N_of_ascii c in
        if ((65 <=? n) && (n <=? 90)
            || (192 <=? n) && (n <=? 222) && negb (n =? 215))%N
        then ascii_of_N (n + 32) else c) <$> s.

(** [s.replace(a, b)] for one character strings [a] and [b]. *)
Definition replace (a b : ascii) (s : str) : str :=
  (λ c, if bool_decide (c = a) then b else c) <$> s.

(** [s.split(sep)] for a one character separator: never the empty list. *)
Fixpoint split (sep : ascii) (s : str) : list str :=
  match s with
  | [] => [[]]
  | c :: s' =>
      if bool_decide (c = sep) then [] :: split sep s'
      else match split sep s' with
           | [] => [[c]]
           | p :: ps => (c :: p) :: ps
           end
  end.

(** [sep.join(parts)]. *)
Fixpoint join (sep : str) (parts : list str) : str :=
  match parts with
  | [] => []
  | [p] => p
  | p :: ps => p ++ sep ++ join sep ps
  end.

(** [s[i:]] for any integer [i]: a negative [i] counts from the end and the
    bounds are clamped, so the slice never fails. *)
Definition slice_from (i : Z) (s : str) : str :=
  let n := Z.of_nat (length s) in
  let lo := if (i <? 0)%Z then Z.max (n + i) 0 else Z.min i n in
  drop (Z.to_nat lo) s.

(** [[k for k, _ in itertools.groupby(xs)]]: the key of each run of
    consecutive equal elements; [key] is the key of the run being read. *)
Fixpoint groupby_from (key : str) (xs : list str) : list str :=
  match xs with
  | [] => []
  | x :: xs' =>
      if bool_decide (x = key) then groupby_from key xs'
      else x :: groupby_from x xs'
  end.

Definition groupby_keys (xs : list str) : list str :=
  match xs with
  | [] => []
  | x :: xs' => x :: groupby_from x xs'
  end.

(** The line boundaries of [str.splitlines] among the code points below 256:
    line feed, vertical tab, form feed, carriage return, the file, group and
    record separators, and next line. *)
Definition is_linebreak (c : ascii) : bool :=
  let n := N_of_ascii c in
  ((10 <=? n) && (n <=? 13) || (28 <=? n) && (n <=? 30) || (n =? 133))%N.

(** [s.splitlines()] from the middle of a line: [cur] is the part of the line
    read so far, [after_cr] says that the last character was a carriage
    return, which makes one boundary with a line feed that follows it. *)
Fixpoint splitlines_from (cur : str) (after_cr : bool) (s : str) : list str :=
  match s with
  | [] => match cur with [] => [] | _ => [cur] end
  | c :: s' =>
      if after_cr && bool_decide (c = "010"%char)
      then splitlines_from cur false s'
      else if is_linebreak c
      then cur :: splitlines_from [] (bool_decide (c = "013"%char)) s'
      else splitlines_from (cur ++ [c]) false s'
  end.

Definition splitlines (s : str) : list str := splitlines_from [] false s.


(** [s.endswith(suffix)]. *)
Definition endswith (s suffix : str) : bool :=
  bool_decide (drop (length s - length suffix) s = suffix).

(** [s.replace(old, new)] for a non-empty [old], read from the left: [skip]
    counts the characters of an occurrence of [old] still to pass over. *)
Fixpoint replace_str_from (old new : str) (skip : nat) (s : str) : str :=
  match s with
  | [] => []
  | c :: s' =>
      match skip with
      | S k => replace_str_from old new k s'
      | O =>
          if startswith s old
          then new ++ replace_str_from old new (pred (length old)) s'
          else c :: replace_str_from old new 0 s'
      end
  end.

(** [s.replace(old, new)]; an empty [old] matches before every character and
    at the end. *)
Definition replace_str (old new : str) (s : str) : str :=
  match old with
  | [] => new ++ (s ≫= λ c, c :: new)
  | _ => replace_str_from old new 0 s
  end.

End Py.

(** ** [clean_lines] *)

(** Truth value of a string: [if s] holds for the non-empty ones. *)
Definition truthy (s : str) : bool :=
  match s with [] => false | _ => true end.

Definition truthy_list {A} (l : list A) : bool :=
  match l with [] => false | _ => true end.

(** The first statement: trimmed non-blank lines with runs collapsed. *)
Definition exact_lines (lines : list str) : list str :=
  Py.groupby_keys
    (Py.strip <$> filter (λ ln, truthy (Py.strip ln) = true) lines).

(** One iteration of the [for ln in exact] loop on the accumulator [final]. *)
Definition clean_step (final : list str) (ln : str) : list str :=
  match last final with
  | None => final ++ [ln]
  | Some prev =>
      if bool_decide (ln = prev) then final
      else if Py.contains prev ln then final
      else if Py.contains ln prev then <[pred (length final) := ln]> final
      else final ++ [ln]
  end.

Definition clean_lines (lines : list str) : list str :=
  foldl clean_step [] (exact_lines lines).

(** ** [strip_timestamps] and the paragraph step of [save_transcript] *)

(** Consume one character satisfying [p]. *)
Definition expect (p : ascii → bool) (s : str) : option str :=
  match s with
  | c :: s' => if p c then Some s' else None
  | [] => None
  end.

Definition is_char (a : ascii) (c : ascii) : bool := bool_decide (c = a).

(** A sequence of character classes matched at the start of [s]: what follows
    the characters matched. *)
Definition match_seq (classes : list (ascii → bool)) (s : str) : option str :=
  foldl (λ (o : option str) p, o ≫= expect p) (Some s) classes.

(** [\[\d{2}:\d{2}:\d{2}\]]. *)
Definition bracket_pattern : list (ascii → bool) :=
  [is_char "["; Py.isdigit; Py.isdigit; is_char ":";
   Py.isdigit; Py.isdigit; is_char ":";
   Py.isdigit; Py.isdigit; is_char "]"].

(** [^\[\d{2}:\d{2}:\d{2}\]] matched at the start of [s]: what follows the
    closing bracket. *)
Definition match_bracket (s : str) : option str :=
  match_seq bracket_pattern s.

(** [re.sub(r"^\[\d{2}:\d{2}:\d{2}\]\s*", "", line)]: the anchor allows one
    match, at the start, and [\s*] takes all the whitespace after the
    bracket. *)
Definition re_sub_timestamp (line : str) : str :=
  match match_bracket line with
  | Some rest => Py.lstrip rest
  | None => line
  end.

Definition strip_timestamps (line : str) : str :=
  Py.strip (re_sub_timestamp line).

(** [" ".join([strip_timestamps(ln) for ln in cleaned if ln.strip()])]. *)
Definition paragraph (cleaned : list str) : str :=
  Py.join (lit " ")
    (strip_timestamps <$> filter (λ ln, truthy (Py.strip ln) = true) cleaned).

(** *** The paragraph reducer in the words of the specification *)

(** The marker of the specification, [[HH:MM:SS]] and one space: two digits
    each for hour, minute and second, in brackets, followed by one space. *)
Definition spec_marker : list (ascii → bool) :=
  [is_char "["; Py.isdigit; Py.isdigit; is_char ":";
   Py.isdigit; Py.isdigit; is_char ":";
   Py.isdigit; Py.isdigit; is_char "]"; is_char " "].

(** Strip the marker if it is present at the start. *)
Definition spec_strip_marker (line : str) : str :=
  match match_seq spec_marker line with
  | Some rest => rest
  | None => line
  end.

(** Strip the marker of each line, trim, drop the lines that became empty,
    join with one space. *)
Definition spec_paragraph (cleaned : list str) : str :=
  Py.join (lit " ")
    (filter (λ ln, truthy ln = true)
       ((λ ln, Py.strip (spec_strip_marker ln)) <$> cleaned)).

(** ** [vtt_to_lines] *)

(** A cue as [webvtt] hands it over: [cue.start] and [cue.text]. *)
Record Cue := { start : str; text : str }.

(** The instances of [Exception] that reach an [except Exception]: those the
    code raises itself, and those of its collaborators. *)
Inductive Exn :=
  | ValueError (msg : str)
  | FileNotFoundError (msg : str)
  | OtherException (kind msg : str).

(** [str(e)]. *)
Definition exn_str (e : Exn) : str :=
  match e with
  | ValueError m | FileNotFoundError m | OtherException _ m => m
  end.

(** The body of the [for cue in ...] loop: the line appended, or [None] when
    the body ends in [continue]. *)
Definition cue_line (include_timestamps : bool) (cue : Cue) : option str :=
  let text := Py.replace "010" " " (Py.strip cue.(text)) in
  if truthy text then
    if include_timestamps then
      let ts := default [] (head (Py.split "." cue.(start))) in
      Some (lit "[" ++ ts ++ lit "] " ++ text)
    else Some text
  else None.

Definition vtt_step (include_timestamps : bool) (lines : list str) (cue : Cue)
  : list str :=
  match cue_line include_timestamps cue with
  | Some ln => lines ++ [ln]
  | None => lines
  end.

(** [vtt_to_lines] on the cues read from the file. *)
Definition vtt_to_lines (cues : list Cue) (include_timestamps : bool)
  : Exn + list str :=
  let lines := foldl (vtt_step include_timestamps) [] cues in
  if truthy_list lines then inr lines
  else inl (ValueError (lit "Subtitles file was empty after parsing.")).

(** ** [save_transcript] and the batch loop

    The pipeline runs against the outside world: the subtitle download, the
    [webvtt] reader, the file system and [os.path].  A computation takes the
    state of that world and returns the new state with either the exception
    raised or the value returned. *)

Section Pipeline.

Context {World : Type}.

Definition M (A : Type) : Type := World → World * (Exn + A).

Definition ret {A} (a : A) : M A := λ w, (w, inr a).

Definition raise {A} (e : Exn) : M A := λ w, (w, inl e).

Definition bind {A B} (m : M A) (k : A → M B) : M B :=
  λ w, match m w with
       | (w', inr a) => k a w'
       | (w', inl e) => (w', inl e)
       end.

(** [try: m except Exception: h]. *)
Definition try_except {A} (m : M A) (h : M A) : M A :=
  λ w, match m w with
       | (w', inr a) => (w', inr a)
       | (w', inl _) => h w'
       end.

(** A value or exception that does not touch the world. *)
Definition lift {A} (r : Exn + A) : M A := λ w, (w, r).

Notation "'let!' x ':=' m 'in' k" := (bind m (λ x, k))
  (at level 10, x name, m at level 100, k at level 200).

(** The collaborators: yt-dlp, which downloads the subtitles and reports the
    video id (as the f-string prints it), [sorted(glob.glob(pattern))],
    [webvtt.read], writing a text file, [shutil.move], and the [os.path]
    functions. *)
Variable extract_info_id : str → M str.
Variable glob_sorted : str → M (list str).
Variable webvtt_read : str → M (list Cue).
Variable write_text : str → str → M unit.
Variable shutil_move : str → str → M unit.
Variable OUTPUT_DIR : str.
Variable path_join : str → str → str.
Variable basename : str → str.
Variable splitext_root : str → str.
Variable abspath : str → str.

Definition download_vtt (video_id_or_url : str) : M str :=
  let! vid := extract_info_id video_id_or_url in
  let! candidates := glob_sorted (vid ++ lit "*.vtt") in
  match candidates with
  | [] =>
      raise (FileNotFoundError
               (lit "No .vtt subtitle files were downloaded for this video."))
  | first :: _ =>
      match List.find
              (λ c, Py.contains (Py.lower (basename c)) (lit ".en"))
              candidates with
      | Some c => ret c
      | None => ret first
      end
  end.

Definition save_transcript (video_url_or_id base_name : str)
    (include_timestamps : bool) : M (str * str * str) :=
  let stem := splitext_root (basename base_name) in
  let base_name := if truthy stem then stem else lit "transcript" in
  let! vtt_path := download_vtt video_url_or_id in
  let! cues := webvtt_read vtt_path in
  let! lines := lift (vtt_to_lines cues include_timestamps) in
  let cleaned := clean_lines lines in
  let txt_path := path_join OUTPUT_DIR (base_name ++ lit ".txt") in
  let! _ := write_text txt_path (Py.join ["010"%char] cleaned) in
  let para_path := path_join OUTPUT_DIR (base_name ++ lit "_paragraphs.txt") in
  let! _ := write_text para_path (paragraph cleaned) in
  let vtt_out := path_join OUTPUT_DIR (basename vtt_path) in
  let! vtt_out :=
    try_except
      (if bool_decide (abspath vtt_path ≠ abspath vtt_out)
       then (let! _ := shutil_move vtt_path vtt_out in ret vtt_out)
       else ret vtt_out)
      (ret (abspath vtt_path)) in
  ret (abspath txt_path, abspath para_path, abspath vtt_out).

(** A row of [results]: [(item, status, txt_path, para_path)]. *)
Definition Row : Type := str * str * str * str.

Definition row_item (r : Row) : str := r.1.1.1.
Definition row_status (r : Row) : str := r.1.1.2.
Definition row_txt (r : Row) : str := r.1.2.
Definition row_para (r : Row) : str := r.2.

(** The base name taken in batch mode: [item[-11:]]. *)
Definition batch_base_name (item : str) : str := Py.slice_from (-11) item.

(** The row appended for [item] after the [try] block ended in [out]. *)
Definition batch_row (item : str) (out : Exn + (str * str * str)) : Row :=
  match out with
  | inr (txt_path, para_path, _) => (item, lit "OK", txt_path, para_path)
  | inl e => (item, lit "ERROR: " ++ exn_str e, [], [])
  end.

(** One iteration of [for item in entries]. *)
Definition batch_step (batch_ts : bool) (acc : World * list Row) (item : str)
  : World * list Row :=
  let vid := batch_base_name item in
  let out := save_transcript item vid batch_ts acc.1 in
  (out.1, acc.2 ++ [batch_row item out.2]).

Definition batch_loop (entries : list str) (batch_ts : bool) (w : World)
  : World * list Row :=
  foldl (batch_step batch_ts) (w, []) entries.

End Pipeline.

(** ** The batch form *)

(** [[ln.strip() for ln in batch_input.splitlines() if ln.strip()]]. *)
Definition batch_entries (batch_input : str) : list str :=
  Py.strip <$>
    filter (λ ln, truthy (Py.strip ln) = true) (Py.splitlines batch_input).

Section BatchForm.

Context {World : Type}.
Variable extract_info_id : str → @M World str.
Variable glob_sorted : str → @M World (list str).
Variable webvtt_read : str → @M World (list Cue).
Variable write_text : str → str → @M World unit.
Variable shutil_move : str → str → @M World unit.
Variable OUTPUT_DIR : str.
Variable path_join : str → str → str.
Variable basename : str → str.
Variable splitext_root : str → str.
Variable abspath : str → str.

(** The body of [if st.button("Run batch")]: the error shown, or the rows. *)
Definition run_batch (batch_input : str) (batch_ts : bool) (w : World)
  : World * (str + list Row) :=
  let entries := batch_entries batch_input in
  if truthy_list entries then
    let done := batch_loop extract_info_id glob_sorted webvtt_read write_text
                  shutil_move OUTPUT_DIR path_join basename splitext_root
                  abspath entries batch_ts w in
    (done.1, inr done.2)
  else (w, inl (lit "Please paste at least one URL/ID.")).

End BatchForm.

(** ** [check_password] and the gate of the script

    [st.session_state] holds truth values under string keys, [st.secrets]
    holds the configured values, of which a string can equal the password
    typed.  The secrets store is taken to exist. *)

Inductive Secret :=
  | SecretStr (s : str)
  | SecretOther (truth : bool).

#[global] Instance Secret_eq_dec : EqDecision Secret.
Proof. solve_decision. Defined.

(** The password typed and whether Unlock was pressed in this run. *)
Record LoginForm := { pw : str; unlock : bool }.

(** How [check_password] ends: it returns, or [st.rerun()] leaves the run. *)
Inductive Control :=
  | Return (b : bool)
  | RerunScript.

Definition check_password (session_state : gmap string bool)
    (secrets : gmap string Secret) (form : LoginForm)
  : gmap string bool * list str * Control :=
  if bool_decide (session_state !! "auth_ok"%string = Some true)
  then (session_state, [], Return true)
  else if form.(unlock) then
    match secrets !! "APP_PASSWORD"%string with
    | None =>
        (session_state,
         [lit ("Server is not configured yet. " ++
               "Admin must set APP_PASSWORD in Secrets.")],
         Return false)
    | Some required =>
        if bool_decide (SecretStr form.(pw) = required)
        then (<["auth_ok"%string := true]> session_state, [], RerunScript)
        else (session_state, [lit "Incorrect password."], Return false)
    end
  else (session_state, [], Return false).

(** How a run of the script ends: stopped at the gate, left for a rerun, or
    with the application shown. *)
Inductive RunEnd := Stopped | Rerunning | Shown.

Section Script.

(** What the rest of the script does to the session state (its widgets have
    keys of their own). *)
Variable body : gmap string bool → gmap string bool.
Variable secrets : gmap string Secret.

(** [if not check_password(): st.stop()], then the rest of the script. *)
Definition script_run (session_state : gmap string bool) (form : LoginForm)
  : gmap string bool * RunEnd :=
  match check_password session_state secrets form with
  | (session_state, _, Return true) => (body session_state, Shown)
  | (session_state, _, Return false) => (session_state, Stopped)
  | (session_state, _, RerunScript) => (session_state, Rerunning)
  end.

(** Successive runs within one session, one per form submitted. *)
Definition script_runs (forms : list LoginForm)
    (session_state : gmap string bool) : gmap string bool * list RunEnd :=
  foldl (λ acc form,
           let r := script_run acc.1 form in (r.1, acc.2 ++ [r.2]))
        (session_state, []) forms.

End Script.

(** ** The summary panel of [app_vibbli.py] *)


Section Summary.

Context {World : Type}.
Variable secrets : gmap string Secret.
Variable environ : gmap string str.

(** The text of [VIBBLI_PROMPT], and the chat completion of a client: the
    content of the first choice for a key, a model and the messages as pairs
    of role and content (the temperature is a constant). *)
Variable VIBBLI_PROMPT : str.
Variable chat_completions_create :
  Secret → str → list (str * str) → @M World str.


End Summary.

(** The paragraph files offered for a summary:
    [[f for f in os.listdir(OUTPUT_DIR) if f.endswith("_paragraphs.txt")]]. *)
Definition para_files (listing : list str) : list str :=
  filter (λ f, Py.endswith f (lit "_paragraphs.txt") = true) listing.

(** The file name of the notes: [choice.replace("_paragraphs.txt",
    "_notes.txt")]. *)
Definition notes_name (choice : str) : str :=
  Py.replace_str (lit "_paragraphs.txt") (lit "_notes.txt") choice.

(** * The vocabulary of the properties *)

(** A line as the first pass leaves it: trimmed and not empty. *)
Definition trimmed (ln : str) : Prop := Py.strip ln = ln ∧ truthy ln = true.

(** [R] holds between every element of a list and its successor. *)
Fixpoint adjacent {A} (R : A → A → Prop) (l : list A) : Prop :=
  match l with
  | x :: (y :: _) as l' => R x y ∧ adjacent R l'
  | _ => True
  end.

(** The later of two neighbours does not occur in the earlier one. *)
Definition not_in_prev (x y : str) : Prop := Py.contains x y = false.

(** Neighbours with no containment either way. *)
Definition unrelated (x y : str) : Prop :=
  x ≠ y ∧ Py.contains x y = false ∧ Py.contains y x = false.

(** A list as [clean_lines] returns it. *)
Definition cleaned_shape (ys : list str) : Prop :=
  Forall trimmed ys ∧ adjacent not_in_prev ys.

(** Some line of [final] contains [x]. *)
Definition covered (final : list str) (x : str) : Prop :=
  ∃ y, y ∈ final ∧ Py.contains y x = true.

(** The form [HH:MM:SS] of a start time cut at the dot: two digits each. *)
Definition hms_pattern : list (ascii → bool) :=
  [Py.isdigit; Py.isdigit; is_char ":"; Py.isdigit; Py.isdigit; is_char ":";
   Py.isdigit; Py.isdigit].

Definition is_hms (hms : str) : Prop := match_seq hms_pattern hms = Some [].

(** The start time of a cue is [HH:MM:SS], a dot and a fraction. *)
Definition timed (cue : Cue) : Prop :=
  ∃ hms frac, is_hms hms ∧ cue.(start) = hms ++ "."%char :: frac.

(** The text of a cue is not blank. *)
Definition spoken (cue : Cue) : Prop := Py.strip cue.(text) ≠ [].

(** A candidate file whose lower-cased base name holds [".en"]. *)
Definition english_name (basename : str → str) (c : str) : bool :=
  Py.contains (Py.lower (basename c)) (lit ".en").

(** The stem [save_transcript] names its files after. *)
Definition file_stem_of (basename splitext_root : str → str)
    (base_name : str) : str :=
  let stem := splitext_root (basename base_name) in
  if truthy stem then stem else lit "transcript".

(** The message of the exception [vtt_to_lines] raises. *)
Definition empty_transcript_error : Exn :=
  ValueError (lit "Subtitles file was empty after parsing.").

(** The input on which a replaced line ends up next to a line it contains. *)
Definition overlap_input : list str := [lit "ab"; lit "c"; lit "abc"].

(** The input of the worked example. *)
Definition cat_input : list str :=
  [lit "the cat sat"; lit "the cat sat on the mat"; lit "on the mat"].

(** A transcript with timestamps, a repeated cue and a plain line. *)
Definition stamped_input : list str :=
  [lit "[00:01:02] hello"; lit "[00:01:02] hello"; lit "[00:01:05]  world";
   lit "plain text"].

(** ** A small world to run the pipeline in

    Files written are logged; the download fails for the reference ["bad"]
    and leaves one English track for any other; every track read has one
    cue. *)

Module Demo.

Definition World : Type := list (str * str).

Definition extract_info_id (video : str) : @M World str :=
  if bool_decide (video = lit "bad")
  then raise (OtherException (lit "DownloadError") (lit "no subtitles"))
  else ret video.

Definition glob_sorted (pattern : str) : @M World (list str) :=
  ret [take (length pattern - 5) pattern ++ lit ".en.vtt"].

Definition webvtt_read (path : str) : @M World (list Cue) :=
  ret [ {| start := lit "00:00:01.500"; text := lit "hello" |} ].

Definition write_text (path content : str) : @M World unit :=
  λ w, (w ++ [(path, content)], inr ()).

Definition shutil_move (src dst : str) : @M World unit := ret ().

Definition OUTPUT_DIR : str := lit "transcripts".

Definition path_join (a b : str) : str := a ++ lit "/" ++ b.

Definition basename (p : str) : str := p.

Definition splitext_root (p : str) : str := p.

Definition abspath (p : str) : str := lit "/app/" ++ p.

Definition batch_loop :=
  batch_loop extract_info_id glob_sorted webvtt_read write_text shutil_move
    OUTPUT_DIR path_join basename splitext_root abspath.

Definition batch_step :=
  batch_step extract_info_id glob_sorted webvtt_read write_text shutil_move
    OUTPUT_DIR path_join basename splitext_root abspath.

Definition entries : list str := [lit "dQw4w9WgXcQ"; lit "bad"; lit "abc"].

End Demo.

(** The form submits the configured password. *)
Definition unlocks (secrets : gmap string Secret) (form : LoginForm) : Prop :=
  form.(unlock) = true ∧
  secrets !! "APP_PASSWORD"%string = Some (SecretStr form.(pw)).

(** The session is authenticated. *)
Definition authenticated (session_state : gmap string bool) : Prop :=
  session_state !! "auth_ok"%string = Some true.

(** The two suffixes of the summary panel. *)
Definition paragraphs_suffix : str := lit "_paragraphs.txt".
Definition notes_suffix : str := lit "_notes.txt".

(** A session of three runs: a wrong password, the right one, and a run
    with the form left alone; the rest of the script stores a checkbox. *)
Module Visit.

Definition secrets : gmap string Secret :=
  {[ "APP_PASSWORD"%string := SecretStr (lit "s3cret") ]}.

Definition body (session_state : gmap string bool) : gmap string bool :=
  <["batch_ts"%string := false]> session_state.

Definition wrong : LoginForm := {| pw := lit "guess"; unlock := true |}.
Definition right : LoginForm := {| pw := lit "s3cret"; unlock := true |}.
Definition idle : LoginForm := {| pw := []; unlock := false |}.

End Visit.

(** A track in which nothing is said. *)
Module Silent.

Definition webvtt_read (path : str) : @M Demo.World (list Cue) :=
  ret [ {| start := lit "00:00:01.000"; text := lit "  " |} ].

End Silent.

(** * Properties *)

(** ** Substrings *)

Lemma startswith_spec (s p : str) :
  Py.startswith s p = true ↔ ∃ post, s = p ++ post.
Proof.
  revert s. induction p as [|a p IH]; intros s; simpl.
  - split; [intros _; by exists s | done].
  - destruct s as [|b s]; simpl.
    + split; [done | by intros [post ?]].
    + rewrite andb_true_iff, bool_decide_eq_true, IH. split.
      * intros [-> [post ->]]. by exists post.
      * intros [post Heq]. simplify_eq. eauto.
Qed.

Lemma contains_spec (s sub : str) :
  Py.contains s sub = true ↔ ∃ pre post, s = pre ++ sub ++ post.
Proof.
  induction s as [|c s IH]; simpl; rewrite orb_true_iff, startswith_spec.
  - split.
    + intros [[post ->] | ?]; [by exists [], post | done].
    + intros (pre & post & Heq). left. destruct pre; [by exists post |done].
  - rewrite IH. split.
    + intros [[post ->] | (pre & post & ->)]; [by exists [], post |].
      by exists (c :: pre), post.
    + intros (pre & post & Heq). destruct pre as [|c' pre]; simpl in Heq.
      * left. by exists post.
      * right. simplify_eq. by exists pre, post.
Qed.

Lemma contains_refl (s : str) : Py.contains s s = true.
Proof. apply contains_spec. exists [], []. by rewrite app_nil_r. Qed.

Lemma contains_trans (a b c : str) :
  Py.contains a b = true → Py.contains b c = true → Py.contains a c = true.
Proof.
  rewrite !contains_spec. intros (p1 & q1 & ->) (p2 & q2 & ->).
  exists (p1 ++ p2), (q2 ++ q1). by rewrite <- !app_assoc.
Qed.

(** ** Trimming *)

Lemma lstrip_idemp (s : str) : Py.lstrip (Py.lstrip s) = Py.lstrip s.
Proof.
  induction s as [|c s IH]; simpl; [done|].
  destruct (Py.isspace c) eqn:Hc; [done|]. simpl. by rewrite Hc.
Qed.

Lemma lstrip_app_nonspace (l r : str) (c : ascii) :
  Py.isspace c = false → Py.lstrip (l ++ c :: r) = Py.lstrip l ++ c :: r.
Proof.
  intros Hc. induction l as [|a l IH]; simpl; [by rewrite Hc|].
  by destruct (Py.isspace a).
Qed.

Lemma rstrip_cons_nonspace (c : ascii) (s : str) :
  Py.isspace c = false → Py.rstrip (c :: s) = c :: Py.rstrip s.
Proof.
  intros Hc. unfold Py.rstrip.
  by rewrite reverse_cons, lstrip_app_nonspace, reverse_app.
Qed.

Lemma rstrip_idemp (s : str) : Py.rstrip (Py.rstrip s) = Py.rstrip s.
Proof. unfold Py.rstrip. by rewrite reverse_involutive, lstrip_idemp. Qed.

(** What [lstrip] returns is empty or starts with a non-space character. *)
Lemma lstrip_cases (s : str) :
  Py.lstrip s = [] ∨
  ∃ c t, Py.lstrip s = c :: t ∧ Py.isspace c = false.
Proof.
  induction s as [|c s IH]; simpl; [by left|].
  destruct (Py.isspace c) eqn:Hc; [done|]. right. eauto.
Qed.

Lemma strip_cases (s : str) :
  Py.strip s = [] ∨
  ∃ c t, Py.strip s = c :: Py.rstrip t ∧ Py.isspace c = false.
Proof.
  unfold Py.strip. destruct (lstrip_cases s) as [->|(c & t & -> & Hc)].
  - by left.
  - right. exists c, t. by rewrite rstrip_cons_nonspace.
Qed.

Lemma strip_idemp (s : str) : Py.strip (Py.strip s) = Py.strip s.
Proof.
  destruct (strip_cases s) as [->|(c & t & -> & Hc)]; [done|].
  unfold Py.strip. simpl. rewrite Hc.
  by rewrite rstrip_cons_nonspace, rstrip_idemp.
Qed.

(** ** Neighbours in a list *)

Section Adjacent.

Context {A : Type} (R : A → A → Prop).

Lemma adjacent_snoc (l : list A) (x : A) :
  adjacent R (l ++ [x]) ↔
  adjacent R l ∧ from_option (λ p, R p x) True (last l).
Proof.
  induction l as [|a [|b l] IH]; simpl in *; [tauto.. |].
  rewrite IH. tauto.
Qed.

Lemma adjacent_lookup (l : list A) :
  adjacent R l ↔ ∀ i x y, l !! i = Some x → l !! S i = Some y → R x y.
Proof.
  induction l as [|a [|b l] IH].
  - split; [intros _ [|?] ??; done | done].
  - split; [intros _ [|?] ??; done | done].
  - change (adjacent R (a :: b :: l)) with (R a b ∧ adjacent R (b :: l)).
    rewrite IH. split.
    + intros [Hab H] [|i] x y Hx Hy; simplify_eq/=; [done|]. by eapply H.
    + intros H. split; [by apply (H 0) |].
      intros i x y Hx Hy. by apply (H (S i)).
Qed.

End Adjacent.

Lemma adjacent_impl {A} (R R' : A → A → Prop) (l : list A) :
  (∀ x y, R x y → R' x y) → adjacent R l → adjacent R' l.
Proof.
  intros HR. induction l as [|a [|b l] IH]; [done..|].
  intros [Hab Hl]. split; [by apply HR | by apply IH].
Qed.

(** ** The second pass of [clean_lines] *)

Lemma clean_step_nil (ln : str) : clean_step [] ln = [ln].
Proof. done. Qed.

Lemma clean_step_snoc (init : list str) (prev ln : str) :
  clean_step (init ++ [prev]) ln =
    if bool_decide (ln = prev) then init ++ [prev]
    else if Py.contains prev ln then init ++ [prev]
    else if Py.contains ln prev then init ++ [ln]
    else init ++ [prev; ln].
Proof.
  unfold clean_step. rewrite last_snoc, length_app. simpl.
  replace (pred (length init + 1)) with (length init + 0) by lia.
  rewrite insert_app_r. simpl. by rewrite <- app_assoc.
Qed.

(** Case analysis on the accumulator the way the loop reads it: empty, or
    ending in [prev]. *)
Lemma final_cases (final : list str) :
  final = [] ∨ ∃ init prev, final = init ++ [prev].
Proof.
  destruct (last final) as [prev|] eqn:Hlast.
  - right. apply last_Some in Hlast as [init ->]. eauto.
  - left. by apply last_None.
Qed.

Lemma clean_step_not_in_prev (final : list str) (ln : str) :
  adjacent not_in_prev final → adjacent not_in_prev (clean_step final ln).
Proof.
  intros Hadj. destruct (final_cases final) as [->|(init & prev & ->)]; [done|].
  rewrite clean_step_snoc.
  case_bool_decide as Heq; [done|].
  destruct (Py.contains prev ln) eqn:Hsub; [done|].
  apply adjacent_snoc in Hadj as [Hinit Hprev].
  destruct (Py.contains ln prev) eqn:Hsup.
  - apply adjacent_snoc. split; [done|].
    destruct (last init) as [x|]; simpl in *; [|done].
    unfold not_in_prev in *.
    destruct (Py.contains x ln) eqn:Hx; [|done].
    by rewrite (contains_trans x ln prev) in Hprev.
  - change (init ++ [prev; ln]) with (init ++ [prev] ++ [ln]).
    rewrite app_assoc. apply adjacent_snoc. split.
    + by apply adjacent_snoc.
    + by rewrite last_snoc.
Qed.

Lemma foldl_clean_step_not_in_prev (exact final : list str) :
  adjacent not_in_prev final →
  adjacent not_in_prev (foldl clean_step final exact).
Proof.
  revert final. induction exact as [|ln exact IH]; intros final Hadj; [done|].
  simpl. by apply IH, clean_step_not_in_prev.
Qed.

(** Each iteration keeps the accumulator a subsequence of what was read. *)
Lemma clean_step_sublist (final seen : list str) (ln : str) :
  final `sublist_of` seen → clean_step final ln `sublist_of` seen ++ [ln].
Proof.
  intros Hsub. destruct (final_cases final) as [->|(init & prev & ->)].
  - rewrite clean_step_nil. by apply sublist_inserts_l.
  - rewrite clean_step_snoc.
    assert (init `sublist_of` seen) as Hinit.
    { etrans; [|exact Hsub]. by apply sublist_inserts_r. }
    repeat case_match.
    + by apply sublist_inserts_r.
    + by apply sublist_inserts_r.
    + by apply sublist_app.
    + change (init ++ [prev; ln]) with (init ++ [prev] ++ [ln]).
      rewrite app_assoc. by apply sublist_app.
Qed.

Lemma foldl_clean_step_sublist (exact final seen : list str) :
  final `sublist_of` seen →
  foldl clean_step final exact `sublist_of` seen ++ exact.
Proof.
  revert final seen.
  induction exact as [|ln exact IH]; intros final seen Hsub; simpl.
  - by rewrite app_nil_r.
  - rewrite (cons_middle ln seen exact), app_assoc.
    by apply IH, clean_step_sublist.
Qed.

Lemma groupby_from_sublist (key : str) (xs : list str) :
  Py.groupby_from key xs `sublist_of` xs.
Proof.
  revert key. induction xs as [|x xs IH]; intros key; simpl; [done|].
  case_bool_decide; [by apply sublist_cons | by apply sublist_skip].
Qed.

Lemma groupby_keys_sublist (xs : list str) : Py.groupby_keys xs `sublist_of` xs.
Proof.
  destruct xs as [|x xs]; simpl; [done|].
  apply sublist_skip, groupby_from_sublist.
Qed.

Lemma clean_lines_sublist_exact (lines : list str) :
  clean_lines lines `sublist_of` exact_lines lines.
Proof. by apply (foldl_clean_step_sublist _ [] []). Qed.

Lemma exact_lines_sublist (lines : list str) :
  exact_lines lines `sublist_of` Py.strip <$> lines.
Proof.
  unfold exact_lines. etrans; [apply groupby_keys_sublist|].
  apply fmap_sublist, sublist_filter.
Qed.

Lemma Forall_sublist {A} (P : A → Prop) (l k : list A) :
  Forall P k → l `sublist_of` k → Forall P l.
Proof.
  rewrite !Forall_forall. intros Hk Hsub x Hx.
  by eapply Hk, elem_of_sublist.
Qed.

Lemma exact_lines_trimmed (lines : list str) :
  Forall trimmed (exact_lines lines).
Proof.
  eapply Forall_sublist; [|apply groupby_keys_sublist].
  apply Forall_fmap, Forall_forall. intros ln [Hln _]%list_elem_of_filter.
  split; [apply strip_idemp | done].

Qed.

Lemma clean_lines_trimmed (lines : list str) :
  Forall trimmed (clean_lines lines).
Proof.
  eapply Forall_sublist; [apply exact_lines_trimmed|].
  apply clean_lines_sublist_exact.
Qed.

(** *** Lists the cleaner leaves alone *)

Lemma filter_all {A} (P : A → Prop) `{!∀ x, Decision (P x)} (l : list A) :
  Forall P l → filter P l = l.
Proof.
  induction 1 as [|x l Hx _ IH]; [done|]. by rewrite filter_cons_True, IH.
Qed.

Lemma groupby_from_distinct (key : str) (xs : list str) :
  adjacent (≠) (key :: xs) → Py.groupby_from key xs = xs.
Proof.
  revert key. induction xs as [|x xs IH]; intros key Hadj; [done|].
  destruct Hadj as [Hne Hadj]. simpl.
  rewrite bool_decide_eq_false_2 by done. by rewrite IH.
Qed.

Lemma groupby_keys_distinct (xs : list str) :
  adjacent (≠) xs → Py.groupby_keys xs = xs.
Proof.
  destruct xs as [|x xs]; [done|]. intros Hadj. simpl.
  by rewrite groupby_from_distinct.
Qed.

Lemma exact_lines_fixed (ys : list str) :
  Forall trimmed ys → adjacent (≠) ys → exact_lines ys = ys.
Proof.
  intros Htrim Hadj. unfold exact_lines.
  rewrite filter_all.
  - assert (Py.strip <$> ys = id <$> ys) as ->.
    { apply Forall_fmap_ext. eapply Forall_impl; [exact Htrim|].
      by intros ln [? _]. }
    rewrite list_fmap_id. by apply groupby_keys_distinct.
  - eapply Forall_impl; [exact Htrim|]. intros ln [Hs Ht]. by rewrite Hs.
Qed.

Lemma clean_step_unrelated (final : list str) (ln : str) :
  from_option (λ prev, unrelated prev ln) True (last final) →
  clean_step final ln = final ++ [ln].
Proof.
  destruct (final_cases final) as [->|(init & prev & ->)]; [done|].
  rewrite last_snoc, clean_step_snoc. simpl. intros (Hne & H1 & H2).
  rewrite bool_decide_eq_false_2, H1, H2 by done. by rewrite <- app_assoc.
Qed.

Lemma foldl_clean_step_fixed (ys final : list str) :
  from_option (λ prev, adjacent unrelated (prev :: ys))
    (adjacent unrelated ys) (last final) →
  foldl clean_step final ys = final ++ ys.
Proof.
  revert final. induction ys as [|ln ys IH]; intros final Hadj; simpl.
  - by rewrite app_nil_r.
  - rewrite clean_step_unrelated.
    + rewrite IH, <- app_assoc; [done|]. rewrite last_snoc. simpl.
      destruct (last final); simpl in Hadj; [by destruct Hadj | done].
    + destruct (last final); simpl in *; [by destruct Hadj | done].
Qed.

(** The length of the accumulator grows by one exactly when the line is
    appended. *)
Lemma clean_step_length (final : list str) (ln : str) :
  length (clean_step final ln) ≤ S (length final) ∧
  (length (clean_step final ln) = S (length final) →
   from_option (λ prev, unrelated prev ln) True (last final)).
Proof.
  destruct (final_cases final) as [->|(init & prev & ->)]; [done|].
  rewrite clean_step_snoc, last_snoc. simpl.
  case_bool_decide as Hne; [rewrite !length_app; simpl; lia|].
  destruct (Py.contains prev ln) eqn:H1; [rewrite !length_app; simpl; lia|].
  destruct (Py.contains ln prev) eqn:H2; [rewrite !length_app; simpl; lia|].
  rewrite !length_app. simpl. split; [lia|]. intros _.
  split; [congruence | done].
Qed.

Lemma foldl_clean_step_length (ys final : list str) :
  length (foldl clean_step final ys) ≤ length final + length ys.
Proof.
  revert final. induction ys as [|ln ys IH]; intros final; simpl; [lia|].
  specialize (IH (clean_step final ln)).
  pose proof (clean_step_length final ln) as [? _]. lia.
Qed.

Lemma foldl_clean_step_full (ys final : list str) :
  length (foldl clean_step final ys) = length final + length ys →
  from_option (λ prev, adjacent unrelated (prev :: ys))
    (adjacent unrelated ys) (last final).
Proof.
  revert final. induction ys as [|ln ys IH]; intros final Hlen; simpl in *.
  - by destruct (last final).
  - pose proof (foldl_clean_step_length ys (clean_step final ln)) as Hle.
    pose proof (clean_step_length final ln) as [Hstep Hfull].
    assert (length (clean_step final ln) = S (length final)) as Hgrow by lia.
    specialize (Hfull Hgrow).
    rewrite clean_step_unrelated in Hlen by done.
    assert (length (foldl clean_step (final ++ [ln]) ys) =
            length (final ++ [ln]) + length ys) as Hlen'
      by (rewrite length_app; simpl; lia).
    apply IH in Hlen'. rewrite last_snoc in Hlen'. simpl in Hlen'.
    by destruct (last final).
Qed.

Lemma clean_lines_not_in_prev (lines : list str) :
  adjacent not_in_prev (clean_lines lines).
Proof. by apply foldl_clean_step_not_in_prev. Qed.

Lemma not_in_prev_ne (x y : str) : not_in_prev x y → x ≠ y.
Proof.
  unfold not_in_prev. intros Hxy ->. by rewrite contains_refl in Hxy.
Qed.

Lemma clean_lines_distinct (lines : list str) :
  adjacent (≠) (clean_lines lines).
Proof.
  apply (adjacent_impl not_in_prev (≠)); [apply not_in_prev_ne|].
  apply clean_lines_not_in_prev.
Qed.

(** *** The claims on [clean_lines] *)

(** C1, counterexample: on ["ab", "c", "abc"] the cleaner returns
    ["ab", "abc"], the third line having replaced the second; the neighbours
    "ab" and "abc" are in a containment relation. *)
Lemma clean_lines_adjacent_containment :
  clean_lines overlap_input = [lit "ab"; lit "abc"] ∧
  clean_lines overlap_input !! 0 = Some (lit "ab") ∧
  clean_lines overlap_input !! 1 = Some (lit "abc") ∧
  Py.contains (lit "abc") (lit "ab") = true.
Proof. by vm_compute. Qed.

(** C1, as amended: in the output of [clean_lines] no two adjacent lines are
    equal and no line is a substring of the line before it. *)
Theorem clean_lines_adjacency (lines : list str) (i : nat) (x y : str) :
  clean_lines lines !! i = Some x →
  clean_lines lines !! S i = Some y →
  x ≠ y ∧ Py.contains x y = false.
Proof.
  intros Hx Hy.
  assert (not_in_prev x y) as Hxy.
  { eapply (proj1 (adjacent_lookup not_in_prev (clean_lines lines))); [|done..].
    apply clean_lines_not_in_prev. }
  split; [by apply not_in_prev_ne | done].
Qed.

Lemma clean_lines_adjacency_witness :
  lit "hello" ≠ lit "world" ∧
  Py.contains (lit "hello") (lit "world") = false.
Proof.
  apply (clean_lines_adjacency [lit "hello"; lit "hello"; lit "world"] 0);
    vm_compute; reflexivity.
Defined.

(** C2, counterexample: cleaning ["ab", "c", "abc"] gives ["ab", "abc"], and
    cleaning that again gives ["abc"]. *)
Lemma clean_lines_not_idempotent :
  clean_lines overlap_input = [lit "ab"; lit "abc"] ∧
  clean_lines (clean_lines overlap_input) = [lit "abc"].
Proof. by vm_compute. Qed.

(** C2, as amended: when no line of the cleaned output is a substring of the
    line after it, cleaning the output again returns it unchanged. *)
Theorem clean_lines_idempotent (lines : list str) :
  (∀ i x y, clean_lines lines !! i = Some x →
            clean_lines lines !! S i = Some y →
            Py.contains y x = false) →
  clean_lines (clean_lines lines) = clean_lines lines.
Proof.
  intros Hfwd.
  assert (adjacent unrelated (clean_lines lines)) as Hadj.
  { apply adjacent_lookup. intros i x y Hx Hy.
    pose proof (proj1 (adjacent_lookup _ _) (clean_lines_not_in_prev lines)
                  i x y Hx Hy) as Hback.
    split; [by apply not_in_prev_ne|]. split; [done|]. by eapply Hfwd. }
  unfold clean_lines at 1. rewrite exact_lines_fixed.
  - by apply (foldl_clean_step_fixed _ []).
  - apply clean_lines_trimmed.
  - apply clean_lines_distinct.
Qed.

Lemma clean_lines_idempotent_witness :
  clean_lines (clean_lines [lit "hello"; lit "hello"; lit "world"]) =
  clean_lines [lit "hello"; lit "hello"; lit "world"].
Proof.
  apply (clean_lines_idempotent [lit "hello"; lit "hello"; lit "world"]).
  intros [|[|i]] x y Hx Hy; vm_compute in Hx, Hy; simplify_eq.
  vm_compute. reflexivity.
Defined.

(** X2, the converse: a cleaned output that a second run leaves unchanged has
    no line that is a substring of the line after it. *)
Theorem clean_lines_fixed_no_containment (lines : list str) (i : nat)
    (x y : str) :
  clean_lines (clean_lines lines) = clean_lines lines →
  clean_lines lines !! i = Some x →
  clean_lines lines !! S i = Some y →
  Py.contains y x = false.
Proof.
  intros Hfix Hx Hy.
  unfold clean_lines at 1 in Hfix. rewrite exact_lines_fixed in Hfix.
  - apply (f_equal length) in Hfix.
    apply (foldl_clean_step_full _ []) in Hfix. simpl in Hfix.
    by destruct (proj1 (adjacent_lookup unrelated _) Hfix i x y Hx Hy)
      as (_ & _ & ?).
  - apply clean_lines_trimmed.
  - apply clean_lines_distinct.
Qed.

Lemma clean_lines_fixed_no_containment_witness :
  Py.contains (lit "world") (lit "hello") = false.
Proof.
  apply (clean_lines_fixed_no_containment
           [lit "hello"; lit "hello"; lit "world"] 0);
    vm_compute; reflexivity.
Defined.

(** C4: on the three lines of the example the first pass changes nothing, the
    second line replaces the first, the third is discarded, and [clean_lines]
    returns the one line "the cat sat on the mat". *)
Theorem clean_lines_containment_collapse :
  exact_lines cat_input = cat_input ∧
  foldl clean_step [] (take 2 cat_input) = [lit "the cat sat on the mat"] ∧
  clean_step [lit "the cat sat on the mat"] (lit "on the mat") =
    [lit "the cat sat on the mat"] ∧
  clean_lines cat_input = [lit "the cat sat on the mat"].
Proof. by vm_compute. Qed.

(** C5: the output of [clean_lines] is no longer than its input, and it is a
    subsequence of the trimmed input lines: the lines kept appear in their
    original order. *)
Theorem clean_lines_length_order (lines : list str) :
  length (clean_lines lines) ≤ length lines ∧
  clean_lines lines `sublist_of` Py.strip <$> lines.
Proof.
  assert (clean_lines lines `sublist_of` Py.strip <$> lines) as Hsub.
  { etrans; [apply clean_lines_sublist_exact | apply exact_lines_sublist]. }
  split; [|done]. apply sublist_length in Hsub. by rewrite length_fmap in Hsub.
Qed.

(** ** The line projector *)

Lemma foldl_vtt_step (ts : bool) (cues : list Cue) (lines : list str) :
  foldl (vtt_step ts) lines cues = lines ++ omap (cue_line ts) cues.
Proof.
  revert lines. induction cues as [|cue cues IH]; intros lines; simpl.
  - by rewrite app_nil_r.
  - rewrite IH. unfold vtt_step.
    destruct (cue_line ts cue); [by rewrite <- app_assoc | done].
Qed.

Lemma cue_line_None (ts : bool) (cue : Cue) :
  cue_line ts cue = None ↔ Py.strip cue.(text) = [].
Proof.
  unfold cue_line, Py.replace.
  destruct (Py.strip (text cue)) as [|c t]; simpl; [done|].
  by destruct ts.
Qed.

Lemma omap_cue_line_nil (ts : bool) (cues : list Cue) :
  omap (cue_line ts) cues = [] ↔
  Forall (λ cue, Py.strip cue.(text) = []) cues.
Proof.
  induction cues as [|cue cues IH]; simpl; [done|].
  rewrite Forall_cons, <- IH, <- (cue_line_None ts).
  destruct (cue_line ts cue); [|tauto].
  split; [done | by intros [? _]].
Qed.

(** C6: [vtt_to_lines] raises, and then the [ValueError] of the empty
    transcript, if and only if the text of every cue is empty after trimming;
    otherwise it returns the lines, of which there is at least one. *)
Theorem vtt_to_lines_empty_iff (cues : list Cue) (ts : bool) :
  (vtt_to_lines cues ts = inl empty_transcript_error ↔
     Forall (λ cue, Py.strip cue.(text) = []) cues) ∧
  (vtt_to_lines cues ts = inl empty_transcript_error ∨
   ∃ ln lines, vtt_to_lines cues ts = inr (ln :: lines) ∧
               Exists (λ cue, Py.strip cue.(text) ≠ []) cues).
Proof.
  unfold vtt_to_lines. rewrite foldl_vtt_step. simpl.
  rewrite <- (omap_cue_line_nil ts).
  destruct (omap (cue_line ts) cues) as [|ln lines] eqn:Hlines; simpl.
  - split; [done|]. by left.
  - split; [done|]. right. exists ln, lines. split; [done|].
    apply not_Forall_Exists; [apply _|].
    rewrite <- (omap_cue_line_nil ts), Hlines. done.
Qed.

(** [split(sep)[0]] is always there. *)
Lemma split_not_nil (sep : ascii) (s : str) : Py.split sep s ≠ [].
Proof.
  induction s as [|c s IH]; simpl; [done|].
  case_bool_decide; [done|]. by destruct (Py.split sep s).
Qed.

Lemma split_head (sep : ascii) (a b : str) :
  sep ∉ a → head (Py.split sep (a ++ sep :: b)) = Some a.
Proof.
  induction a as [|c a IH]; intros Hsep; simpl.
  - by rewrite bool_decide_eq_true_2.
  - apply not_elem_of_cons in Hsep as [Hne Hsep].
    rewrite bool_decide_eq_false_2 by done.
    specialize (IH Hsep).
    destruct (Py.split sep (a ++ sep :: b)); by simplify_eq/=.
Qed.

(** C8: a cue whose start time is [hms], a dot and a fraction is projected,
    timestamps enabled, to the line that starts with [hms] in brackets,
    whatever the fraction; the line takes the place of the cue among the lines
    of the track. *)
Theorem timestamp_truncation (cue : Cue) (hms frac : str) :
  cue.(start) = hms ++ "."%char :: frac →
  "."%char ∉ hms →
  Py.strip cue.(text) ≠ [] →
  let line :=
    lit "[" ++ hms ++ lit "] " ++ Py.replace "010" " " (Py.strip cue.(text)) in
  cue_line true cue = Some line ∧
  ∀ before after,
    vtt_to_lines (before ++ cue :: after) true =
      inr (omap (cue_line true) before ++ line :: omap (cue_line true) after).
Proof.
  intros Hstart Hdot Htext line.
  assert (cue_line true cue = Some line) as Hline.
  { unfold cue_line, line. rewrite Hstart, split_head by done. simpl.
    unfold Py.replace. by destruct (Py.strip (text cue)). }
  split; [done|]. intros before after.
  unfold vtt_to_lines. rewrite foldl_vtt_step. simpl.
  rewrite omap_app. simpl. rewrite Hline.
  by destruct (omap (cue_line true) before).
Qed.

Lemma timestamp_truncation_witness :
  cue_line true {| start := lit "00:01:02.345"; text := lit "hello" |} =
    Some (lit "[00:01:02] hello").
Proof.
  apply (timestamp_truncation
           {| start := lit "00:01:02.345"; text := lit "hello" |}
           (lit "00:01:02") (lit "345")).
  - reflexivity.
  - apply (bool_decide_unpack _). vm_compute. exact I.
  - vm_compute. discriminate.
Defined.

(** ** Timestamp markers *)

Lemma match_seq_cons (p : ascii → bool) (ps : list (ascii → bool))
    (s : str) :
  match_seq (p :: ps) s = expect p s ≫= match_seq ps.
Proof.
  unfold match_seq. simpl. destruct (expect p s) as [r|]; simpl; [done|].
  induction ps as [|q ps IH]; [done | by simpl].
Qed.

Lemma match_seq_app (ps qs : list (ascii → bool)) (s : str) :
  match_seq (ps ++ qs) s = match_seq ps s ≫= match_seq qs.
Proof.
  revert s. induction ps as [|p ps IH]; intros s; [done|].
  rewrite <- app_comm_cons, !match_seq_cons.
  destruct (expect p s) as [r|]; simpl; [apply IH | done].
Qed.

(** A match consumes one character of each class, in order. *)
Lemma match_seq_spec (ps : list (ascii → bool)) (s r : str) :
  match_seq ps s = Some r ↔
  ∃ m, s = m ++ r ∧ Forall2 (λ p c, p c = true) ps m.
Proof.
  revert s. induction ps as [|p ps IH]; intros s.
  - unfold match_seq. simpl. split.
    + intros [= ->]. exists []. by split.
    + intros (m & -> & ->%Forall2_nil_inv_l). done.
  - rewrite match_seq_cons. destruct s as [|c s]; simpl.
    + split; [done|]. intros (m & Hs & Hm).
      apply Forall2_cons_inv_l in Hm as (? & ? & _ & _ & ->). done.
    + destruct (p c) eqn:Hpc; simpl.
      * rewrite IH. split.
        -- intros (m & -> & Hm). exists (c :: m). split; [done|].
           by constructor.
        -- intros (m & Hs & Hm).
           apply Forall2_cons_inv_l in Hm as (c' & m' & _ & Hm' & ->).
           simplify_eq/=. eauto.
      * split; [done|]. intros (m & Hs & Hm).
        apply Forall2_cons_inv_l in Hm as (c' & m' & Hc' & _ & ->).
        simplify_eq/=. congruence.
Qed.

Lemma match_seq_extend (ps : list (ascii → bool)) (m r : str) :
  match_seq ps m = Some [] → match_seq ps (m ++ r) = Some r.
Proof.
  rewrite !match_seq_spec. intros (m' & Hm & Hall).
  rewrite app_nil_r in Hm. subst m'. eauto.
Qed.

Lemma match_seq_length (ps : list (ascii → bool)) (s r : str) :
  match_seq ps s = Some r → length s = length ps + length r.
Proof.
  intros (m & -> & Hm)%match_seq_spec. apply Forall2_length in Hm.
  rewrite length_app. lia.
Qed.

Lemma spec_marker_bracket (line : str) :
  match_seq spec_marker line = match_bracket line ≫= expect (is_char " ").
Proof.
  change spec_marker with (bracket_pattern ++ [is_char " "]).
  rewrite match_seq_app. unfold match_bracket.
  destruct (match_seq bracket_pattern line) as [r|]; simpl; [|done].
  unfold match_seq. simpl. by destruct (expect _ r).
Qed.

(** ** More on trimming *)

Lemma lstrip_app_spaces (ws s : str) :
  Forall (λ c, Py.isspace c = true) ws → Py.lstrip (ws ++ s) = Py.lstrip s.
Proof. induction 1 as [|c ws Hc _ IH]; simpl; [done | by rewrite Hc]. Qed.

Lemma lstrip_nil_spaces (s : str) :
  Py.lstrip s = [] → Forall (λ c, Py.isspace c = true) s.
Proof.
  induction s as [|c s IH]; simpl; [done|].
  destruct (Py.isspace c) eqn:Hc; [|done]. intros Hs. constructor; auto.
Qed.

Lemma lstrip_length (s : str) : length (Py.lstrip s) ≤ length s.
Proof.
  induction s as [|c s IH]; simpl; [done|].
  destruct (Py.isspace c); simpl; lia.
Qed.

Lemma rstrip_length (s : str) : length (Py.rstrip s) ≤ length s.
Proof.
  unfold Py.rstrip. rewrite length_reverse.
  etrans; [apply lstrip_length|]. by rewrite length_reverse.
Qed.

Lemma rstrip_app_spaces (s ws : str) :
  Forall (λ c, Py.isspace c = true) ws → Py.rstrip (s ++ ws) = Py.rstrip s.
Proof.
  intros Hws. unfold Py.rstrip.
  rewrite reverse_app, lstrip_app_spaces; [done|]. by apply Forall_reverse.
Qed.

Lemma strip_lstrip (s : str) : Py.strip (Py.lstrip s) = Py.strip s.
Proof. unfold Py.strip. by rewrite lstrip_idemp. Qed.

Lemma strip_nil_lstrip (s : str) : Py.strip s = [] → Py.lstrip s = [].
Proof.
  unfold Py.strip. destruct (lstrip_cases s) as [->|(c & t & -> & Hc)]; [done|].
  by rewrite rstrip_cons_nonspace.
Qed.

Lemma strip_fixed_rstrip (s : str) : Py.strip s = s → Py.rstrip s = s.
Proof.
  intros Hs. rewrite <- Hs. unfold Py.strip. by rewrite rstrip_idemp.
Qed.

(** A trimmed line does not end in whitespace: what follows a prefix of it is
    empty or not blank. *)
Lemma trimmed_tail_not_blank (m r : str) :
  trimmed (m ++ r) → r ≠ [] → Py.strip r ≠ [].
Proof.
  intros [Hstrip _] Hr Hblank.
  apply strip_nil_lstrip, lstrip_nil_spaces in Hblank.
  apply strip_fixed_rstrip in Hstrip.
  rewrite rstrip_app_spaces in Hstrip by done.
  apply (f_equal length) in Hstrip. pose proof (rstrip_length m).
  rewrite length_app in Hstrip. destruct r; [done|]. simpl in Hstrip. lia.
Qed.

(** *** [strip_timestamps] *)

Lemma strip_timestamps_no_bracket (line : str) :
  match_bracket line = None → strip_timestamps line = Py.strip line.
Proof. unfold strip_timestamps, re_sub_timestamp. by intros ->. Qed.

Lemma strip_timestamps_bracket (line rest : str) :
  match_bracket line = Some rest → strip_timestamps line = Py.strip rest.
Proof.
  unfold strip_timestamps, re_sub_timestamp. intros ->. apply strip_lstrip.
Qed.

(** C9: a line that starts with a [[dd:dd:dd]] bracket followed by any run of
    whitespace, the empty one included, is reduced by [strip_timestamps] to
    the trimmed remainder of the line. *)
Theorem strip_timestamps_any_space (bracket ws rest : str) :
  match_bracket bracket = Some [] →
  Forall (λ c, Py.isspace c = true) ws →
  strip_timestamps (bracket ++ ws ++ rest) = Py.strip rest.
Proof.
  intros Hbracket Hws.
  rewrite (strip_timestamps_bracket _ (ws ++ rest)).
  - unfold Py.strip. by rewrite lstrip_app_spaces.
  - by apply match_seq_extend.
Qed.

Lemma strip_timestamps_any_space_witness :
  strip_timestamps (lit "[00:01:02]text") = lit "text".
Proof.
  apply (strip_timestamps_any_space (lit "[00:01:02]") [] (lit "text")).
  - reflexivity.
  - constructor.
Defined.

(** *** The paragraph reducer *)

(** On a trimmed line on which a bracket, if there is one, is followed by a
    space, the code and the specification strip the same marker, and the line
    does not become empty. *)
Lemma strip_timestamps_spec_marker (ln : str) :
  trimmed ln →
  (∀ rest, match_bracket ln = Some rest → head rest = Some " "%char) →
  strip_timestamps ln = Py.strip (spec_strip_marker ln) ∧
  truthy (strip_timestamps ln) = true.
Proof.
  intros Htrim Hspace. unfold spec_strip_marker.
  rewrite spec_marker_bracket.
  destruct (match_bracket ln) as [rest|] eqn:Hm; simpl.
  - specialize (Hspace rest eq_refl).
    destruct rest as [|c rest]; simplify_eq/=.
    rewrite (strip_timestamps_bracket _ _ Hm).
    assert (Py.strip (" "%char :: rest) = Py.strip rest) as Hstrip by done.
    rewrite Hstrip. split; [done|].
    apply match_seq_spec in Hm as (m & -> & _).
    pose proof (trimmed_tail_not_blank m (" "%char :: rest) Htrim) as Hnb.
    rewrite Hstrip in Hnb. destruct (Py.strip rest); [by destruct Hnb | done].
  - rewrite (strip_timestamps_no_bracket _ Hm).
    destruct Htrim as [-> ?]. done.
Qed.

(** C3, counterexample: the cleaned line "[00:01:02]text" has no space after
    the bracket; the code reduces it to "text", the procedure of the claim
    leaves it as it is. *)
Lemma paragraph_bracket_without_space :
  clean_lines [lit "[00:01:02]text"] = [lit "[00:01:02]text"] ∧
  paragraph [lit "[00:01:02]text"] = lit "text" ∧
  spec_paragraph [lit "[00:01:02]text"] = lit "[00:01:02]text".
Proof. by vm_compute. Qed.

(** C3, as amended: on a cleaned transcript in which every line that starts
    with a [[dd:dd:dd]] bracket has a space right after it, the paragraph is
    produced as the claim says: the marker stripped from each line, the rest
    trimmed, empty lines dropped, the results joined with one space. *)
Theorem paragraph_reducer (lines : list str) :
  (∀ ln rest, ln ∈ clean_lines lines →
              match_bracket ln = Some rest → head rest = Some " "%char) →
  paragraph (clean_lines lines) = spec_paragraph (clean_lines lines).
Proof.
  intros Hspace. unfold paragraph, spec_paragraph.
  pose proof (clean_lines_trimmed lines) as Htrim.
  rewrite filter_all.
  2:{ eapply Forall_impl; [exact Htrim|]. intros ln [Hs Ht]. by rewrite Hs. }
  assert (Forall
            (λ ln, strip_timestamps ln = Py.strip (spec_strip_marker ln) ∧
                   truthy (strip_timestamps ln) = true)
            (clean_lines lines)) as Hagree.
  { apply Forall_forall. intros ln Hin.
    apply strip_timestamps_spec_marker.
    - by eapply (proj1 (Forall_forall _ _) Htrim).
    - intros rest. by apply Hspace. }
  f_equal.
  assert (strip_timestamps <$> clean_lines lines =
          (λ ln, Py.strip (spec_strip_marker ln)) <$> clean_lines lines) as <-.
  { apply Forall_fmap_ext. eapply Forall_impl; [exact Hagree|].
    by intros ln [? _]. }
  rewrite filter_all; [done|].
  apply Forall_fmap. eapply Forall_impl; [exact Hagree|]. by intros ln [_ ?].
Qed.

Lemma paragraph_reducer_witness :
  paragraph (clean_lines stamped_input) =
  spec_paragraph (clean_lines stamped_input).
Proof.
  apply (paragraph_reducer stamped_input).
  assert (clean_lines stamped_input =
          [lit "[00:01:02] hello"; lit "[00:01:05]  world"; lit "plain text"])
    as -> by (vm_compute; reflexivity).
  intros ln rest Hin Hm.
  repeat (apply elem_of_cons in Hin as [->|Hin];
          [vm_compute in Hm; simplify_eq; reflexivity|]).
  by apply elem_of_nil in Hin.
Defined.

Example paragraph_stamped :
  paragraph (clean_lines stamped_input) = lit "hello world plain text".
Proof. vm_compute. reflexivity. Qed.

(** ** The batch loop *)

Lemma slice_from_neg (n : nat) (s : str) :
  Py.slice_from (- Z.of_nat (S n)) s = drop (length s - S n) s.
Proof.
  unfold Py.slice_from.
  assert ((- Z.of_nat (S n) <? 0)%Z = true) as -> by (apply Z.ltb_lt; lia).
  f_equal. lia.
Qed.

Lemma batch_base_name_drop (item : str) :
  batch_base_name item = drop (length item - 11) item.
Proof. apply (slice_from_neg 10). Qed.

Section Batch.

Context {World : Type}.
Variable extract_info_id : str → @M World str.
Variable glob_sorted : str → @M World (list str).
Variable webvtt_read : str → @M World (list Cue).
Variable write_text : str → str → @M World unit.
Variable shutil_move : str → str → @M World unit.
Variable OUTPUT_DIR : str.
Variable path_join : str → str → str.
Variable basename : str → str.
Variable splitext_root : str → str.
Variable abspath : str → str.

(** [os.path.abspath] ends in [normpath], which returns ["."] rather than
    the empty string. *)
Hypothesis abspath_nonempty : ∀ p, abspath p ≠ [].

Local Abbreviation save :=
  (save_transcript extract_info_id glob_sorted webvtt_read write_text
     shutil_move OUTPUT_DIR path_join basename splitext_root abspath).
Local Abbreviation step :=
  (batch_step extract_info_id glob_sorted webvtt_read write_text
     shutil_move OUTPUT_DIR path_join basename splitext_root abspath).
Local Abbreviation loop :=
  (batch_loop extract_info_id glob_sorted webvtt_read write_text
     shutil_move OUTPUT_DIR path_join basename splitext_root abspath).

Lemma save_transcript_paths video base ts w w' txt para vtt :
  save video base ts w = (w', inr (txt, para, vtt)) →
  ∃ a b, txt = abspath a ∧ para = abspath b.
Proof using Type.
  unfold save_transcript, download_vtt, bind, try_except, lift, ret, raise.
  intros Hsave. repeat case_match; simplify_eq; eauto.
Qed.

Lemma batch_loop_snoc entries item ts w :
  loop (entries ++ [item]) ts w = step ts (loop entries ts w) item.
Proof using Type. unfold batch_loop. by rewrite foldl_snoc. Qed.

Lemma batch_loop_length entries ts w :
  length (loop entries ts w).2 = length entries.
Proof using Type.
  induction entries as [|item entries IH] using rev_ind; [done|].
  rewrite batch_loop_snoc. simpl. rewrite !length_app, IH. done.
Qed.

(** Rows are only ever appended: the rows of a prefix of the entries stay
    where they are. *)
Lemma batch_loop_prefix entries more ts w :
  (loop entries ts w).2 `prefix_of` (loop (entries ++ more) ts w).2.
Proof using Type.
  induction more as [|item more IH] using rev_ind.
  - by rewrite app_nil_r.
  - rewrite app_assoc, batch_loop_snoc. simpl.
    etrans; [exact IH|]. by apply prefix_app_r.
Qed.

Lemma batch_loop_items entries ts w :
  row_item <$> (loop entries ts w).2 = entries.
Proof using Type.
  induction entries as [|item entries IH] using rev_ind; [done|].
  rewrite batch_loop_snoc. simpl. rewrite fmap_app, IH. f_equal.
  unfold batch_row. simpl. by repeat case_match.
Qed.

Lemma batch_loop_lookup entries ts w i item :
  entries !! i = Some item →
  (loop entries ts w).2 !! i =
    Some (batch_row item
            (save item (batch_base_name item) ts
               (loop (take i entries) ts w).1).2).
Proof using Type.
  intros Hi. pose proof (lookup_lt_Some _ _ _ Hi) as Hlt.
  rewrite <- (take_drop_middle entries i item Hi) at 1.
  rewrite (cons_middle item), app_assoc.
  eapply prefix_lookup_Some; [|apply batch_loop_prefix].
  rewrite batch_loop_snoc. simpl.
  rewrite lookup_app_r; rewrite batch_loop_length, length_take_le by lia;
    [|done].
  by rewrite Nat.sub_diag.
Qed.

(** C7: the batch loop returns one row per reference, in the order of the
    references.  The row of a reference comes from running the pipeline on
    it, with the last 11 characters of the reference as base name, in the
    world the references before it left behind, whether they failed or
    not: an exception gives the row with the error message and empty
    paths, a success the row OK with both paths, which are not empty. *)
Theorem batch_isolation (entries : list str) (ts : bool) (w : World) :
  let results := (loop entries ts w).2 in
  length results = length entries ∧
  row_item <$> results = entries ∧
  ∀ i item, entries !! i = Some item →
    let vid := batch_base_name item in
    let out := (save item vid ts (loop (take i entries) ts w).1).2 in
    vid = drop (length item - 11) item ∧
    results !! i = Some (batch_row item out) ∧
    match out with
    | inl e => batch_row item out = (item, lit "ERROR: " ++ exn_str e, [], [])
    | inr _ =>
        row_status (batch_row item out) = lit "OK" ∧
        row_txt (batch_row item out) ≠ [] ∧
        row_para (batch_row item out) ≠ []
    end.
Proof using abspath_nonempty.
  intros results. split; [apply batch_loop_length|].
  split; [apply batch_loop_items|].
  intros i item Hi vid out.
  split; [apply batch_base_name_drop|].
  split; [by apply batch_loop_lookup|].
  destruct out as [e|[[txt para] vtt]] eqn:Hout; [done|].
  destruct (save item vid ts (loop (take i entries) ts w).1)
    as [w' r] eqn:Hsave.
  subst out. simpl in Hout. subst r.
  apply save_transcript_paths in Hsave as (a & b & -> & ->).
  simpl. split; [done|]. split; apply abspath_nonempty.
Qed.

(** C10: for a reference of fewer than 11 characters the base name is the
    whole reference, and the iteration of the batch loop runs the pipeline
    on it and appends its row. *)
Theorem batch_base_name_short (item : str) (ts : bool)
    (acc : World * list Row) :
  length item < 11 →
  batch_base_name item = item ∧
  let out := save item item ts acc.1 in
  step ts acc item = (out.1, acc.2 ++ [batch_row item out.2]).
Proof using Type.
  intros Hlen.
  assert (batch_base_name item = item) as Hname.
  { rewrite batch_base_name_drop.
    replace (length item - 11) with 0 by lia. apply drop_0. }
  split; [done|]. unfold batch_step. by rewrite Hname.
Qed.

End Batch.

Lemma demo_abspath_nonempty (p : str) : Demo.abspath p ≠ [].
Proof. done. Qed.

Lemma batch_isolation_witness :
  (Demo.batch_loop Demo.entries false []).2 !! 1 =
    Some (lit "bad", lit "ERROR: no subtitles", [], []).
Proof.
  pose proof (batch_isolation
                Demo.extract_info_id Demo.glob_sorted Demo.webvtt_read
                Demo.write_text Demo.shutil_move Demo.OUTPUT_DIR Demo.path_join
                Demo.basename Demo.splitext_root Demo.abspath
                demo_abspath_nonempty Demo.entries false [])
    as (_ & _ & Hrows).
  destruct (Hrows 1 (lit "bad") eq_refl) as (_ & Hrow & _).
  exact Hrow.
Defined.

Lemma batch_base_name_short_witness :
  batch_base_name (lit "abc") = lit "abc".
Proof.
  refine (proj1 (batch_base_name_short
                   Demo.extract_info_id Demo.glob_sorted Demo.webvtt_read
                   Demo.write_text Demo.shutil_move Demo.OUTPUT_DIR
                   Demo.path_join Demo.basename Demo.splitext_root Demo.abspath
                   (lit "abc") false ([], []) _)).
  vm_compute. lia.
Defined.

Example demo_batch_rows :
  (Demo.batch_loop Demo.entries false []).2 =
    [(lit "dQw4w9WgXcQ", lit "OK", lit "/app/transcripts/dQw4w9WgXcQ.txt",
      lit "/app/transcripts/dQw4w9WgXcQ_paragraphs.txt");
     (lit "bad", lit "ERROR: no subtitles", [], []);
     (lit "abc", lit "OK", lit "/app/transcripts/abc.txt",
      lit "/app/transcripts/abc_paragraphs.txt")].
Proof. vm_compute. reflexivity. Qed.

(** ** Further runs of the helpers *)

(** The exact duplicate example: a run of equal lines is kept once. *)
Example clean_lines_exact_duplicate :
  clean_lines [lit "hello"; lit "hello"; lit "world"] =
    [lit "hello"; lit "world"].
Proof. by vm_compute. Qed.

Example strip_timestamps_extra_space :
  strip_timestamps (lit "[00:01:02]   text ") = lit "text".
Proof. by vm_compute. Qed.

(** The anchor: a bracket after leading whitespace is not at the start of the
    line and stays. *)
Example strip_timestamps_anchored :
  strip_timestamps (lit " [00:01:02] text ") = lit "[00:01:02] text".
Proof. by vm_compute. Qed.

(** A bracket with nothing after it is reduced to the empty string, which the
    paragraph keeps as an item of its own. *)
Example paragraph_bare_bracket :
  paragraph [lit "a"; lit "[00:01:02]"; lit "b"] = lit "a  b".
Proof. by vm_compute. Qed.

Example vtt_to_lines_newline :
  vtt_to_lines
    [ {| start := lit "00:01:02.345";
         text := lit " hi" ++ ["010"%char] ++ lit "there " |} ]
    true = inr [lit "[00:01:02] hi there"].
Proof. by vm_compute. Qed.

Example vtt_to_lines_blank :
  vtt_to_lines
    [ {| start := lit "00:00:01.000"; text := lit "  " |};
      {| start := lit "00:00:02.000"; text := [] |} ] false =
    inl empty_transcript_error.
Proof. by vm_compute. Qed.

(** * Further properties of the code *)

(** ** [clean_lines]: what the first pass ignores *)

Lemma groupby_from_repeat (key y : str) (a b : list str) :
  Py.groupby_from key (a ++ y :: y :: b) = Py.groupby_from key (a ++ y :: b).
Proof.
  revert key. induction a as [|x a IH]; intros key; simpl.
  - case_bool_decide; [done|]. by rewrite bool_decide_eq_true_2.
  - by rewrite !IH.
Qed.

Lemma groupby_keys_repeat (y : str) (a b : list str) :
  Py.groupby_keys (a ++ y :: y :: b) = Py.groupby_keys (a ++ y :: b).
Proof.
  destruct a as [|x a]; simpl.
  - by rewrite bool_decide_eq_true_2.
  - by rewrite groupby_from_repeat.
Qed.

(** The list the first pass hands to [groupby]. *)
Lemma exact_lines_unfold (lines : list str) :
  exact_lines lines =
    Py.groupby_keys
      (Py.strip <$> filter (λ ln, truthy (Py.strip ln) = true) lines).
Proof. done. Qed.

Lemma exact_lines_repeat (pre post : list str) (x x' : str) :
  Py.strip x = Py.strip x' →
  exact_lines (pre ++ x :: x' :: post) = exact_lines (pre ++ x :: post).
Proof.
  intros Hx. rewrite !exact_lines_unfold, !filter_app, !filter_cons, <- Hx.
  destruct (decide (truthy (Py.strip x) = true)) as [Ht|Ht]; [|done].
  rewrite !fmap_app, !fmap_cons, <- Hx. apply groupby_keys_repeat.
Qed.

Lemma exact_lines_blank (pre post : list str) (b : str) :
  Py.strip b = [] →
  exact_lines (pre ++ b :: post) = exact_lines (pre ++ post).
Proof.
  intros Hb. rewrite !exact_lines_unfold, !filter_app, filter_cons, Hb.
  by rewrite decide_False.
Qed.

Lemma exact_lines_strip (lines : list str) :
  exact_lines (Py.strip <$> lines) = exact_lines lines.
Proof.
  rewrite !exact_lines_unfold. f_equal.
  induction lines as [|ln lines IH]; [done|].
  rewrite fmap_cons, !filter_cons, strip_idemp.
  destruct (decide (truthy (Py.strip ln) = true)); [|done].
  by rewrite !fmap_cons, strip_idemp, IH.
Qed.

(** X1: a line that repeats the line before it, up to surrounding
    whitespace, does not change the result, wherever it stands. *)
Theorem clean_lines_repeat (pre post : list str) (x x' : str) :
  Py.strip x = Py.strip x' →
  clean_lines (pre ++ x :: x' :: post) = clean_lines (pre ++ x :: post).
Proof. intros Hx. unfold clean_lines. by rewrite exact_lines_repeat. Qed.

Lemma clean_lines_repeat_witness :
  clean_lines ([lit "a"] ++ lit "hello " :: lit " hello" :: [lit "b"]) =
  clean_lines ([lit "a"] ++ lit "hello " :: [lit "b"]).
Proof.
  apply (clean_lines_repeat [lit "a"] [lit "b"] (lit "hello ") (lit " hello")).
  vm_compute. reflexivity.
Defined.

(** X3: blank lines are ignored wherever they stand. *)
Theorem clean_lines_blank (pre post : list str) (b : str) :
  Py.strip b = [] →
  clean_lines (pre ++ b :: post) = clean_lines (pre ++ post).
Proof. intros Hb. unfold clean_lines. by rewrite exact_lines_blank. Qed.

Lemma clean_lines_blank_witness :
  clean_lines ([lit "a"] ++ lit "   " :: [lit "b"]) =
  clean_lines ([lit "a"] ++ [lit "b"]).
Proof.
  apply (clean_lines_blank [lit "a"] [lit "b"] (lit "   ")).
  vm_compute. reflexivity.
Defined.

(** X4: trimming the lines beforehand does not change the result. *)
Theorem clean_lines_strip (lines : list str) :
  clean_lines (Py.strip <$> lines) = clean_lines lines.
Proof. unfold clean_lines. by rewrite exact_lines_strip. Qed.

(** ** [clean_lines]: what the second pass keeps *)

(** Membership in a list built from [++] and [::]. *)
Ltac elem_solver :=
  rewrite ?elem_of_app, ?elem_of_cons in *; intuition (auto; congruence).

Lemma clean_step_not_nil (final : list str) (ln : str) :
  clean_step final ln ≠ [].
Proof.
  destruct (final_cases final) as [->|(init & prev & ->)]; [done|].
  rewrite clean_step_snoc. repeat case_match; by destruct init.
Qed.

Lemma foldl_clean_step_nil (exact final : list str) :
  foldl clean_step final exact = [] ↔ final = [] ∧ exact = [].
Proof.
  revert final. induction exact as [|ln exact IH]; intros final; simpl.
  - split; [by intros -> | by intros [-> _]].
  - rewrite IH. split; [|by intros [_ ?]].
    intros [Hnil _]. by apply clean_step_not_nil in Hnil.
Qed.

Lemma groupby_keys_nil (xs : list str) : Py.groupby_keys xs = [] ↔ xs = [].
Proof. by destruct xs. Qed.

Lemma filter_nil_Forall {A} (P : A → Prop) `{!∀ x, Decision (P x)}
    (l : list A) :
  filter P l = [] ↔ Forall (λ x, ¬ P x) l.
Proof.
  induction l as [|x l IH]; [done|]. rewrite filter_cons, Forall_cons, <- IH.
  case_decide; [|tauto]. split; [done | by intros [? _]].
Qed.

Lemma fmap_nil_iff {A B} (f : A → B) (l : list A) : f <$> l = [] ↔ l = [].
Proof. by destruct l. Qed.

Lemma truthy_false (s : str) : ¬ truthy s = true ↔ s = [].
Proof.
  destruct s; simpl; [by split|]. split; [by intros [] | done].
Qed.

(** X5: the result is empty exactly when every input line is blank; an input
    with one non-blank line never gives an empty transcript. *)
Theorem clean_lines_nil_iff (lines : list str) :
  clean_lines lines = [] ↔ Forall (λ ln, Py.strip ln = []) lines.
Proof.
  unfold clean_lines. rewrite foldl_clean_step_nil, exact_lines_unfold.
  rewrite groupby_keys_nil, fmap_nil_iff, filter_nil_Forall.
  split.
  - intros [_ Hall]. eapply Forall_impl; [exact Hall|].
    intros ln. apply truthy_false.
  - intros Hall. split; [done|]. eapply Forall_impl; [exact Hall|].
    intros ln. apply truthy_false.
Qed.

Lemma covered_mono (final final' : list str) (x : str) :
  (∀ y, y ∈ final → covered final' y) →
  covered final x → covered final' x.
Proof.
  intros Hsub (y & Hy & Hyx). destruct (Hsub y Hy) as (z & Hz & Hzy).
  exists z. split; [done|]. by eapply contains_trans.
Qed.

Lemma covered_self (final : list str) (x : str) :
  x ∈ final → covered final x.
Proof. intros Hx. exists x. split; [done | apply contains_refl]. Qed.

(** An iteration loses no text: what some line of the accumulator contained
    is still contained in some line, and so is the line just read. *)
Lemma clean_step_covered (final : list str) (ln x : str) :
  covered final x ∨ x = ln → covered (clean_step final ln) x.
Proof.
  destruct (final_cases final) as [->|(init & prev & ->)].
  - intros [(y & Hy & _)| ->]; [by apply elem_of_nil in Hy|].
    apply covered_self. rewrite clean_step_nil. elem_solver.
  - rewrite clean_step_snoc.
    case_bool_decide as Heq.
    { intros [?| ->]; [done|]. subst. apply covered_self. elem_solver. }
    destruct (Py.contains prev ln) eqn:Hsub.
    { intros [?| ->]; [done|]. exists prev. split; [elem_solver | done]. }
    destruct (Py.contains ln prev) eqn:Hsup.
    + intros [Hcov| ->]; [|apply covered_self; elem_solver].
      eapply covered_mono; [|exact Hcov].
      intros y [Hy| ->%list_elem_of_singleton]%elem_of_app.
      * apply covered_self. elem_solver.
      * exists ln. split; [elem_solver | done].
    + intros [Hcov| ->]; [|apply covered_self; elem_solver].
      eapply covered_mono; [|exact Hcov].
      intros y Hy. apply covered_self. elem_solver.
Qed.

Lemma foldl_clean_step_covered (exact final : list str) (x : str) :
  covered final x ∨ x ∈ exact → covered (foldl clean_step final exact) x.
Proof.
  revert final. induction exact as [|ln exact IH]; intros final; simpl.
  - intros [?|Hx]; [done | by apply elem_of_nil in Hx].
  - intros [Hcov|[->|Hx]%elem_of_cons]; apply IH; auto using clean_step_covered.
Qed.

Lemma groupby_from_elem_of (key x : str) (xs : list str) :
  x ∈ xs → x = key ∨ x ∈ Py.groupby_from key xs.
Proof.
  revert key. induction xs as [|y xs IH]; intros key; simpl.
  - by intros ?%elem_of_nil.
  - intros [->|Hx]%elem_of_cons.
    + case_bool_decide; [by left | right; elem_solver].
    + case_bool_decide; [by apply IH|].
      destruct (IH y Hx) as [->|?]; right; elem_solver.
Qed.

Lemma groupby_keys_elem_of (x : str) (xs : list str) :
  x ∈ xs → x ∈ Py.groupby_keys xs.
Proof.
  destruct xs as [|y xs]; [done|]. simpl.
  intros [->|Hx]%elem_of_cons; [elem_solver|].
  destruct (groupby_from_elem_of y x xs Hx) as [->|?]; elem_solver.
Qed.

(** X6: no text is lost: every non-blank input line, trimmed, is a substring
    of some line of the result. *)
Theorem clean_lines_covers (lines : list str) (ln : str) :
  ln ∈ lines → Py.strip ln ≠ [] →
  ∃ y, y ∈ clean_lines lines ∧ Py.contains y (Py.strip ln) = true.
Proof.
  intros Hln Hnb. apply foldl_clean_step_covered. right.
  apply groupby_keys_elem_of, list_elem_of_fmap_2, list_elem_of_filter.
  split; [|done]. by destruct (Py.strip ln).
Qed.

Lemma clean_lines_covers_witness :
  ∃ y, y ∈ clean_lines cat_input ∧
       Py.contains y (Py.strip (lit "on the mat")) = true.
Proof.
  apply (clean_lines_covers cat_input (lit "on the mat")).
  - unfold cat_input. elem_solver.
  - vm_compute. discriminate.
Defined.

(** X7: every line of the result is trimmed and not empty. *)
Theorem clean_lines_lines_trimmed (lines : list str) (y : str) :
  y ∈ clean_lines lines → Py.strip y = y ∧ y ≠ [].
Proof.
  intros Hy.
  pose proof (proj1 (Forall_forall _ _) (clean_lines_trimmed lines) y Hy)
    as [Hs Ht].
  split; [done|]. by destruct y.
Qed.

Lemma clean_lines_lines_trimmed_witness :
  Py.strip (lit "hello") = lit "hello" ∧ lit "hello" ≠ [].
Proof.
  apply (clean_lines_lines_trimmed [lit " hello "; lit "  "]).
  assert (clean_lines [lit " hello "; lit "  "] = [lit "hello"]) as ->
    by (vm_compute; reflexivity).
  elem_solver.
Defined.

(** ** [clean_lines]: the first and the last line *)

Lemma exact_lines_leading_blanks (blanks rest : list str) :
  Forall (λ b, Py.strip b = []) blanks →
  exact_lines (blanks ++ rest) = exact_lines rest.
Proof.
  induction 1 as [|b blanks Hb _ IH]; [done|].
  rewrite <- IH. exact (exact_lines_blank [] (blanks ++ rest) b Hb).
Qed.

Lemma exact_lines_trailing_blanks (blanks rest : list str) :
  Forall (λ b, Py.strip b = []) blanks →
  exact_lines (rest ++ blanks) = exact_lines rest.
Proof.
  revert rest. induction blanks as [|b blanks IH]; intros rest Hall.
  - by rewrite app_nil_r.
  - apply Forall_cons in Hall as [Hb Hall].
    by rewrite (exact_lines_blank rest blanks b Hb), IH.
Qed.

Lemma groupby_from_snoc (key y : str) (l : list str) :
  ∃ init, key :: Py.groupby_from key (l ++ [y]) = init ++ [y].
Proof.
  revert key. induction l as [|a l IH]; intros key; simpl.
  - case_bool_decide as Hy; [subst; by exists [] | by exists [key]].
  - case_bool_decide; [apply IH|].
    destruct (IH a) as [init ->]. by exists (key :: init).
Qed.

Lemma groupby_keys_snoc (y : str) (l : list str) :
  ∃ init, Py.groupby_keys (l ++ [y]) = init ++ [y].
Proof.
  destruct l as [|a l]; simpl; [by exists []|]. apply groupby_from_snoc.
Qed.

Lemma clean_step_last (final : list str) (ln : str) :
  ∃ y, last (clean_step final ln) = Some y ∧ Py.contains y ln = true.
Proof.
  destruct (final_cases final) as [->|(init & prev & ->)].
  - exists ln. split; [done | apply contains_refl].
  - rewrite clean_step_snoc.
    case_bool_decide as Heq.
    { subst. exists prev. rewrite last_snoc.
      split; [done | apply contains_refl]. }
    destruct (Py.contains prev ln) eqn:Hsub.
    { exists prev. by rewrite last_snoc. }
    exists ln. split; [|apply contains_refl].
    destruct (Py.contains ln prev); [by rewrite last_snoc|].
    by rewrite last_app_cons.
Qed.

Lemma clean_step_head (final : list str) (ln x : str) :
  (∃ y, head final = Some y ∧ Py.contains y x = true) →
  ∃ y, head (clean_step final ln) = Some y ∧ Py.contains y x = true.
Proof.
  intros (y & Hy & Hyx).
  destruct (final_cases final) as [->|(init & prev & ->)]; [done|].
  rewrite clean_step_snoc.
  case_bool_decide as Heq; [eauto|].
  destruct (Py.contains prev ln) eqn:Hsub; [eauto|].
  destruct (Py.contains ln prev) eqn:Hsup.
  - destruct init as [|a init]; simplify_eq/=; [|eauto].
    exists ln. split; [done|]. by eapply contains_trans.
  - destruct init as [|a init]; simplify_eq/=; eauto.
Qed.

Lemma foldl_clean_step_head (exact final : list str) (x : str) :
  (∃ y, head final = Some y ∧ Py.contains y x = true) →
  ∃ y, head (foldl clean_step final exact) = Some y ∧
       Py.contains y x = true.
Proof.
  revert final. induction exact as [|ln exact IH]; intros final Hhead; [done|].
  simpl. by apply IH, clean_step_head.
Qed.

(** X8: the first non-blank line is never lost from the top: the first line
    of the result contains it. *)
Theorem clean_lines_first (blanks rest : list str) (x : str) :
  Forall (λ b, Py.strip b = []) blanks → Py.strip x ≠ [] →
  ∃ y, head (clean_lines (blanks ++ x :: rest)) = Some y ∧
       Py.contains y (Py.strip x) = true.
Proof.
  intros Hblanks Hx. unfold clean_lines.
  rewrite exact_lines_leading_blanks, exact_lines_unfold by done.
  rewrite filter_cons_True by (by destruct (Py.strip x)).
  rewrite fmap_cons. simpl. apply foldl_clean_step_head.
  exists (Py.strip x). split; [done | apply contains_refl].
Qed.

Lemma clean_lines_first_witness :
  ∃ y, head (clean_lines ([lit " "] ++ lit "the cat sat" ::
                          [lit "the cat sat on the mat"])) = Some y ∧
       Py.contains y (Py.strip (lit "the cat sat")) = true.
Proof.
  apply (clean_lines_first [lit " "] [lit "the cat sat on the mat"]
           (lit "the cat sat")).
  - by repeat constructor.
  - vm_compute. discriminate.
Defined.

(** X9: the last non-blank line is never lost from the end: the last line of
    the result contains it. *)
Theorem clean_lines_last (rest blanks : list str) (x : str) :
  Forall (λ b, Py.strip b = []) blanks → Py.strip x ≠ [] →
  ∃ y, last (clean_lines (rest ++ x :: blanks)) = Some y ∧
       Py.contains y (Py.strip x) = true.
Proof.
  intros Hblanks Hx. unfold clean_lines.
  rewrite (cons_middle x rest blanks), app_assoc.
  rewrite exact_lines_trailing_blanks, exact_lines_unfold by done.
  rewrite filter_app, filter_cons_True by (by destruct (Py.strip x)).
  rewrite fmap_app. simpl.
  destruct (groupby_keys_snoc (Py.strip x)
              (Py.strip <$> filter (λ ln, truthy (Py.strip ln) = true) rest))
    as [init ->].
  rewrite foldl_snoc. apply clean_step_last.
Qed.

Lemma clean_lines_last_witness :
  ∃ y, last (clean_lines ([lit "the cat sat on the mat"] ++
                          lit "on the mat" :: [lit "  "])) = Some y ∧
       Py.contains y (Py.strip (lit "on the mat")) = true.
Proof.
  apply (clean_lines_last [lit "the cat sat on the mat"] [lit "  "]
           (lit "on the mat")).
  - by repeat constructor.
  - vm_compute. discriminate.
Defined.

(** ** Trimmed strings by their ends *)

Lemma lstrip_fixed (s : str) :
  Py.lstrip s = s ↔ ∀ c, head s = Some c → Py.isspace c = false.
Proof.
  destruct s as [|c s]; simpl; [by split|].
  destruct (Py.isspace c) eqn:Hc.
  - split; [|intros H; specialize (H c eq_refl); congruence].
    intros Hs. apply (f_equal length) in Hs.
    pose proof (lstrip_length s). simpl in Hs. lia.
  - split; [by intros _ ? [= <-] | done].
Qed.

Lemma rstrip_fixed (s : str) :
  Py.rstrip s = s ↔ ∀ c, last s = Some c → Py.isspace c = false.
Proof.
  rewrite <- head_reverse, <- lstrip_fixed. unfold Py.rstrip. split.
  - intros Hs. rewrite <- Hs at 2. by rewrite reverse_involutive.
  - intros Hs. by rewrite Hs, reverse_involutive.
Qed.

Lemma strip_fixed (s : str) :
  Py.strip s = s ↔
  (∀ c, head s = Some c → Py.isspace c = false) ∧
  (∀ c, last s = Some c → Py.isspace c = false).
Proof.
  rewrite <- lstrip_fixed, <- rstrip_fixed. split.
  - intros Hs. split; [|by apply strip_fixed_rstrip].
    destruct (strip_cases s) as [Hnil|(c & t & Hc & Hsp)].
    + rewrite Hnil in Hs. by subst.
    + rewrite Hs in Hc. subst. simpl. by rewrite Hsp.
  - intros [Hl Hr]. unfold Py.strip. by rewrite Hl.
Qed.

(** ** The lines of the projector *)

Lemma replace_trimmed (a b : ascii) (s : str) :
  Py.isspace a = true → Py.strip s = s →
  Py.strip (Py.replace a b s) = Py.replace a b s.
Proof.
  intros Ha [Hhead Hlast]%strip_fixed. apply strip_fixed. unfold Py.replace.
  split; intros c.
  - destruct s as [|x s]; [done|]. simpl. intros [= <-].
    specialize (Hhead x eq_refl). case_bool_decide; [congruence | done].
  - rewrite fmap_last. destruct (last s) as [x|]; [|done]. simpl.
    intros [= <-]. specialize (Hlast x eq_refl).
    case_bool_decide; [congruence | done].
Qed.

Lemma replace_not_elem (a b : ascii) (s : str) :
  a ≠ b → a ∉ Py.replace a b s.
Proof.
  intros Hab. unfold Py.replace.
  intros (c & Hc & _)%list_elem_of_fmap. case_bool_decide; congruence.
Qed.

Lemma cue_line_plain (cue : Cue) :
  spoken cue →
  cue_line false cue = Some (Py.replace "010" " " (Py.strip cue.(text))).
Proof.
  unfold spoken, cue_line, Py.replace. by destruct (Py.strip (text cue)).
Qed.

Lemma cue_line_stamped (cue : Cue) :
  spoken cue →
  cue_line true cue =
    Some (lit "[" ++ default [] (head (Py.split "." cue.(start))) ++
          lit "] " ++ Py.replace "010" " " (Py.strip cue.(text))).
Proof.
  unfold spoken, cue_line, Py.replace. by destruct (Py.strip (text cue)).
Qed.

Lemma cue_line_spoken (ts : bool) (cue : Cue) (ln : str) :
  cue_line ts cue = Some ln → spoken cue.
Proof.
  intros Hln Hblank. apply (cue_line_None ts) in Hblank. congruence.
Qed.

Lemma cue_text_trimmed (cue : Cue) :
  spoken cue → trimmed (Py.replace "010" " " (Py.strip cue.(text))).
Proof.
  intros Hsp. split.
  - apply replace_trimmed; [done | apply strip_idemp].
  - unfold Py.replace. unfold spoken in Hsp. by destruct (Py.strip (text cue)).
Qed.

Lemma cue_line_trimmed (ts : bool) (cue : Cue) (ln : str) :
  cue_line ts cue = Some ln → trimmed ln.
Proof.
  intros Hln. pose proof (cue_line_spoken _ _ _ Hln) as Hsp.
  pose proof (cue_text_trimmed cue Hsp) as [Hstrip Htruthy].
  destruct ts.
  - rewrite cue_line_stamped in Hln by done. simplify_eq.
    split; [|done]. apply strip_fixed. split; [by intros c [= <-]|].
    apply strip_fixed in Hstrip as [_ Hlast].
    destruct (last (Py.replace "010" " " (Py.strip (text cue)))) as [x|]
      eqn:Hl.
    + intros c. rewrite !last_app, Hl. intros [= <-]. by apply Hlast.
    + apply last_None in Hl. by rewrite Hl in Htruthy.
  - rewrite cue_line_plain in Hln by done. by simplify_eq.
Qed.

Lemma length_omap_filter {A B} (f : A → option B) (l : list A) :
  length (omap f l) = length (filter (λ x, is_Some (f x)) l).
Proof.
  induction l as [|x l IH]; [done|]. simpl. rewrite filter_cons.
  case_decide as Hx.
  - destruct Hx as [y ->]. simpl. by rewrite <- IH.
  - destruct (f x); [|done]. by destruct Hx.
Qed.

Lemma vtt_to_lines_omap (cues : list Cue) (ts : bool) (lines : list str) :
  vtt_to_lines cues ts = inr lines → lines = omap (cue_line ts) cues.
Proof.
  unfold vtt_to_lines. rewrite foldl_vtt_step. simpl.
  destruct (omap (cue_line ts) cues); simpl; congruence.
Qed.

Lemma omap_cue_line_trimmed (ts : bool) (cues : list Cue) :
  Forall trimmed (omap (cue_line ts) cues).
Proof.
  apply Forall_forall. intros ln (cue & _ & Hln)%list_elem_of_omap.
  by eapply cue_line_trimmed.
Qed.

Lemma exact_lines_of_trimmed (lines : list str) :
  Forall trimmed lines → exact_lines lines = Py.groupby_keys lines.
Proof.
  intros Htrim. rewrite exact_lines_unfold, filter_all.
  - f_equal. rewrite <- (list_fmap_id lines) at 2.
    apply Forall_fmap_ext. eapply Forall_impl; [exact Htrim|].
    by intros ln [? _].
  - eapply Forall_impl; [exact Htrim|]. intros ln [Hs Ht]. by rewrite Hs.
Qed.

(** X10: the lines returned are one per cue with a non-blank text, and each
    is trimmed and not empty, so that the first statement of [clean_lines]
    only has runs of equal lines to collapse in them. *)
Theorem vtt_to_lines_lines (cues : list Cue) (ts : bool) (lines : list str) :
  vtt_to_lines cues ts = inr lines →
  length lines = length (filter spoken cues) ∧
  (∀ ln, ln ∈ lines → Py.strip ln = ln ∧ ln ≠ []) ∧
  exact_lines lines = Py.groupby_keys lines.
Proof.
  intros ->%vtt_to_lines_omap.
  pose proof (omap_cue_line_trimmed ts cues) as Htrim.
  split; [|split].
  - rewrite length_omap_filter. f_equal. apply list_filter_iff.
    intros cue. unfold spoken. rewrite <- (cue_line_None ts).
    by destruct (cue_line ts cue); split; try done; intros [? ?].
  - intros ln Hln. destruct (proj1 (Forall_forall _ _) Htrim ln Hln).
    split; [done|]. by destruct ln.
  - by apply exact_lines_of_trimmed.
Qed.

Lemma vtt_to_lines_lines_witness :
  length [lit "hello"] =
  length (filter spoken [ {| start := lit "00:00:01.000"; text := lit " " |};
                          {| start := lit "00:00:02.000";
                             text := lit " hello " |} ]).
Proof.
  apply (vtt_to_lines_lines
           [ {| start := lit "00:00:01.000"; text := lit " " |};
             {| start := lit "00:00:02.000"; text := lit " hello " |} ]
           false [lit "hello"]).
  vm_compute. reflexivity.
Defined.

(** ** Timestamps put on and taken off *)

Lemma match_seq_avoids (ps : list (ascii → bool)) (m : str) (a : ascii) :
  Forall (λ p, p a = false) ps →
  Forall2 (λ p c, p c = true) ps m → a ∉ m.
Proof.
  intros Hps Hm. induction Hm as [|p c ps m Hpc _ IH]; [apply not_elem_of_nil|].
  apply Forall_cons in Hps as [Hpa Hps].
  apply not_elem_of_cons. split; [congruence | by apply IH].
Qed.

Lemma is_hms_no_dot (hms : str) : is_hms hms → "."%char ∉ hms.
Proof.
  intros (m & Hm & Hall)%match_seq_spec. rewrite app_nil_r in Hm. subst m.
  eapply match_seq_avoids; [|exact Hall]. by repeat constructor.
Qed.

Lemma is_hms_bracket (hms rest : str) :
  is_hms hms → match_bracket (lit "[" ++ hms ++ lit "]" ++ rest) = Some rest.
Proof.
  intros (m & Hm & Hall)%match_seq_spec. rewrite app_nil_r in Hm. subst m.
  apply match_seq_spec. exists (lit "[" ++ hms ++ lit "]").
  split; [by rewrite <- !app_assoc|].
  change bracket_pattern with ([is_char "["] ++ hms_pattern ++ [is_char "]"]).
  apply Forall2_app; [by repeat constructor|].
  apply Forall2_app; [done | by repeat constructor].
Qed.

Lemma cue_line_timed (cue : Cue) (hms frac : str) :
  is_hms hms → cue.(start) = hms ++ "."%char :: frac → spoken cue →
  cue_line true cue =
    Some (lit "[" ++ hms ++ lit "]" ++
          " "%char :: Py.replace "010" " " (Py.strip cue.(text))).
Proof.
  intros Hhms Hstart Hsp. rewrite cue_line_stamped by done.
  by rewrite Hstart, split_head by (by apply is_hms_no_dot).
Qed.

Lemma omap_cons {A B} (f : A → option B) (x : A) (l : list A) :
  omap f (x :: l) =
    match f x with Some y => y :: omap f l | None => omap f l end.
Proof. done. Qed.

Lemma strip_timestamps_timed_line (hms t : str) :
  is_hms hms →
  strip_timestamps (lit "[" ++ hms ++ lit "]" ++ " "%char :: t) = Py.strip t.
Proof.
  intros Hhms.
  by rewrite (strip_timestamps_bracket _ _ (is_hms_bracket _ _ Hhms)).
Qed.

(** X11: for a cue that starts at [HH:MM:SS] and a fraction,
    [strip_timestamps] takes off the line with timestamp exactly what the
    projector put on: it gives the line the projector emits without
    timestamps. *)
Theorem strip_timestamps_cue_line (cue : Cue) :
  timed cue → strip_timestamps <$> cue_line true cue = cue_line false cue.
Proof.
  intros (hms & frac & Hhms & Hstart).
  destruct (decide (spoken cue)) as [Hsp|Hblank].
  - rewrite (cue_line_timed cue hms frac), cue_line_plain by done.
    change (strip_timestamps <$> Some ?x) with (Some (strip_timestamps x)).
    rewrite strip_timestamps_timed_line by done.
    by destruct (cue_text_trimmed cue Hsp) as [-> _].
  - apply dec_stable in Hblank. unfold spoken in Hblank.
    by rewrite !(proj2 (cue_line_None _ cue)).
Qed.

Lemma strip_timestamps_cue_line_witness :
  strip_timestamps <$>
    cue_line true {| start := lit "00:01:02.345"; text := lit " hi " |} =
  cue_line false {| start := lit "00:01:02.345"; text := lit " hi " |}.
Proof.
  apply strip_timestamps_cue_line.
  exists (lit "00:01:02"), (lit "345"). by split.
Defined.

Lemma strip_timestamps_omap_cue_line (cues : list Cue) :
  Forall timed cues →
  strip_timestamps <$> omap (cue_line true) cues = omap (cue_line false) cues.
Proof.
  induction 1 as [|cue cues Hcue _ IH]; [done|].
  rewrite !omap_cons.
  destruct (decide (spoken cue)) as [Hsp|Hblank].
  - destruct Hcue as (hms & frac & Hhms & Hstart).
    rewrite (cue_line_timed cue hms frac), cue_line_plain by done.
    rewrite fmap_cons, IH, strip_timestamps_timed_line by done.
    by destruct (cue_text_trimmed cue Hsp) as [-> _].
  - apply dec_stable in Hblank. unfold spoken in Hblank.
    by rewrite !(proj2 (cue_line_None _ cue)).
Qed.

Lemma paragraph_cleaned (lines : list str) :
  paragraph (clean_lines lines) =
    Py.join (lit " ") (strip_timestamps <$> clean_lines lines).
Proof.
  unfold paragraph. rewrite filter_all; [done|].
  eapply Forall_impl; [apply clean_lines_trimmed|].
  intros ln [Hs Ht]. by rewrite Hs.
Qed.

Lemma clean_lines_sublist_trimmed (lines : list str) :
  Forall trimmed lines → clean_lines lines `sublist_of` lines.
Proof.
  intros Htrim. etrans; [apply clean_lines_sublist_exact|].
  rewrite exact_lines_of_trimmed by done. apply groupby_keys_sublist.
Qed.

(** X12: with timestamps enabled on a track whose cues start at [HH:MM:SS]
    and a fraction, the paragraph is the join, with one space, of cue texts
    as the projector emits them without timestamps, in the order of the
    track: no timestamp is left in it and no text is made up. *)
Theorem paragraph_of_timed_track (cues : list Cue) (lines : list str) :
  vtt_to_lines cues true = inr lines → Forall timed cues →
  ∃ texts, texts `sublist_of` omap (cue_line false) cues ∧
           paragraph (clean_lines lines) = Py.join (lit " ") texts.
Proof.
  intros ->%vtt_to_lines_omap Htimed.
  exists (strip_timestamps <$> clean_lines (omap (cue_line true) cues)).
  split; [|apply paragraph_cleaned].
  rewrite <- (strip_timestamps_omap_cue_line cues Htimed).
  apply fmap_sublist, clean_lines_sublist_trimmed, omap_cue_line_trimmed.
Qed.

Lemma paragraph_of_timed_track_witness :
  ∃ texts,
    texts `sublist_of`
      omap (cue_line false)
        [ {| start := lit "00:00:01.000"; text := lit "the cat" |};
          {| start := lit "00:00:02.500"; text := lit "the cat sat" |} ] ∧
    paragraph (clean_lines [lit "[00:00:01] the cat";
                            lit "[00:00:02] the cat sat"]) =
      Py.join (lit " ") texts.
Proof.
  apply (paragraph_of_timed_track
           [ {| start := lit "00:00:01.000"; text := lit "the cat" |};
             {| start := lit "00:00:02.500"; text := lit "the cat sat" |} ]).
  - vm_compute. reflexivity.
  - repeat constructor.
    + exists (lit "00:00:01"), (lit "000"). by split.
    + exists (lit "00:00:02"), (lit "500"). by split.
Defined.

(** ** The line file read back *)

Lemma split_no_sep (sep : ascii) (a : str) :
  sep ∉ a → Py.split sep a = [a].
Proof.
  induction a as [|c a IH]; [done|].
  intros [Hne Ha]%not_elem_of_cons. simpl.
  by rewrite bool_decide_eq_false_2, IH by done.
Qed.

Lemma split_app_sep (sep : ascii) (a b : str) :
  sep ∉ a → Py.split sep (a ++ sep :: b) = a :: Py.split sep b.
Proof.
  induction a as [|c a IH]; simpl.
  - intros _. by rewrite bool_decide_eq_true_2.
  - intros [Hne Ha]%not_elem_of_cons.
    by rewrite bool_decide_eq_false_2, IH by done.
Qed.

Lemma split_join (sep : ascii) (ls : list str) :
  ls ≠ [] → Forall (λ l, sep ∉ l) ls →
  Py.split sep (Py.join [sep] ls) = ls.
Proof.
  intros Hne Hall. induction Hall as [|l ls Hl Hls IH]; [done|].
  destruct ls as [|l' ls]; [by apply split_no_sep|].
  change (Py.join [sep] (l :: l' :: ls))
    with (l ++ sep :: Py.join [sep] (l' :: ls)).
  by rewrite split_app_sep, IH.
Qed.

Lemma split_elem_of (sep c : ascii) (s p : str) :
  p ∈ Py.split sep s → c ∈ p → c ∈ s.
Proof.
  revert p. induction s as [|x s IH]; intros p; simpl.
  - by intros ->%list_elem_of_singleton ?.
  - case_bool_decide.
    + intros [->|Hp]%elem_of_cons; [by intros ?%elem_of_nil|].
      right. by eapply IH.
    + destruct (Py.split sep s) as [|q qs].
      * intros ->%list_elem_of_singleton. intros ->%list_elem_of_singleton.
        by left.
      * intros [->|Hp]%elem_of_cons.
        -- intros [->|Hc]%elem_of_cons; [by left|]. right.
           eapply IH; [|done]. by left.
        -- intros Hc. right. eapply IH; [|done]. by right.
Qed.

Lemma cue_line_no_newline (ts : bool) (cue : Cue) (ln : str) :
  cue_line ts cue = Some ln →
  (ts = true → "010"%char ∉ cue.(start)) → "010"%char ∉ ln.
Proof.
  intros Hln Hstart. pose proof (cue_line_spoken _ _ _ Hln) as Hsp.
  assert ("010"%char ∉ Py.replace "010" " " (Py.strip cue.(text))) as Htext
    by (by apply replace_not_elem).
  destruct ts.
  - rewrite cue_line_stamped in Hln by done. simplify_eq.
    rewrite !not_elem_of_app.
    split; [apply (bool_decide_unpack _); by vm_compute|].
    split; [|split; [apply (bool_decide_unpack _); by vm_compute | done]].
    intros Hin. apply (Hstart eq_refl).
    destruct (Py.split "." (start cue)) as [|p ps] eqn:Hsplit;
      [by apply elem_of_nil in Hin|].
    eapply (split_elem_of "."); [|exact Hin]. rewrite Hsplit. by left.
  - rewrite cue_line_plain in Hln by done. by simplify_eq.
Qed.

(** X13: the line file, the cleaned lines joined with newlines, splits at the
    newlines into the cleaned lines again, provided no start time holds a
    newline when timestamps are enabled: one row per cleaned line, no row
    broken in two. *)
Theorem line_file_round_trip (cues : list Cue) (ts : bool) (lines : list str) :
  vtt_to_lines cues ts = inr lines →
  (ts = true → Forall (λ cue, "010"%char ∉ cue.(start)) cues) →
  Py.split "010" (Py.join ["010"%char] (clean_lines lines)) =
    clean_lines lines.
Proof.
  intros Hlines Hstart.
  assert (lines ≠ []) as Hne.
  { unfold vtt_to_lines in Hlines. simpl in Hlines.
    destruct (foldl _ _ _); by simplify_eq/=. }
  apply vtt_to_lines_omap in Hlines as ->.
  pose proof (omap_cue_line_trimmed ts cues) as Htrim.
  apply split_join.
  - unfold clean_lines. rewrite foldl_clean_step_nil.
    rewrite exact_lines_of_trimmed, groupby_keys_nil by done. by intros [_ ?].
  - eapply Forall_sublist; [|by apply clean_lines_sublist_trimmed].
    apply Forall_forall. intros ln (cue & Hcue & Hln)%list_elem_of_omap.
    eapply cue_line_no_newline; [done|]. intros Hts.
    by apply (proj1 (Forall_forall _ _) (Hstart Hts)).
Qed.

Lemma line_file_round_trip_witness :
  Py.split "010" (Py.join ["010"%char]
                    (clean_lines [lit "[00:00:01] a"; lit "[00:00:02] b"])) =
    clean_lines [lit "[00:00:01] a"; lit "[00:00:02] b"].
Proof.
  apply (line_file_round_trip
           [ {| start := lit "00:00:01.000"; text := lit "a" |};
             {| start := lit "00:00:02.000"; text := lit "b" |} ] true).
  - vm_compute. reflexivity.
  - intros _. repeat constructor; apply (bool_decide_unpack _); by vm_compute.
Defined.

(** ** [download_vtt] and [save_transcript] *)

Lemma find_Some_split {A} (f : A → bool) (l : list A) (x : A) :
  List.find f l = Some x →
  ∃ pre post, l = pre ++ x :: post ∧ f x = true ∧
              Forall (λ y, f y = false) pre.
Proof.
  induction l as [|a l IH]; [done|]. simpl.
  destruct (f a) eqn:Ha.
  - intros [= <-]. by exists [], l.
  - intros (pre & post & -> & Hx & Hpre)%IH.
    exists (a :: pre), post. by repeat split; [|constructor].
Qed.

Lemma find_None_Forall {A} (f : A → bool) (l : list A) :
  List.find f l = None → Forall (λ y, f y = false) l.
Proof.
  induction l as [|a l IH]; [done|]. simpl.
  destruct (f a) eqn:Ha; [done|]. intros Hl. constructor; auto.
Qed.

Section Runs.

Context {World : Type}.
Variable extract_info_id : str → @M World str.
Variable glob_sorted : str → @M World (list str).
Variable webvtt_read : str → @M World (list Cue).
Variable write_text : str → str → @M World unit.
Variable shutil_move : str → str → @M World unit.
Variable OUTPUT_DIR : str.
Variable path_join : str → str → str.
Variable basename : str → str.
Variable splitext_root : str → str.
Variable abspath : str → str.

Local Abbreviation download :=
  (download_vtt extract_info_id glob_sorted basename).
Local Abbreviation save :=
  (save_transcript extract_info_id glob_sorted webvtt_read write_text
     shutil_move OUTPUT_DIR path_join basename splitext_root abspath).

Local Abbreviation english := (english_name basename).
Local Abbreviation file_stem := (file_stem_of basename splitext_root).

(** X14: once yt-dlp has reported the video id and the directory listing is
    read, [download_vtt] raises [FileNotFoundError] exactly when no file
    matches; otherwise it returns one of the files listed: the first English
    one, or the first of all when none is English. *)
Theorem download_vtt_choice (video vid : str) (w w1 w2 : World)
    (candidates : list str) :
  extract_info_id video w = (w1, inr vid) →
  glob_sorted (vid ++ lit "*.vtt") w1 = (w2, inr candidates) →
  match download video w with
  | (w', inl e) =>
      w' = w2 ∧ candidates = [] ∧
      e = FileNotFoundError
            (lit "No .vtt subtitle files were downloaded for this video.")
  | (w', inr c) =>
      w' = w2 ∧ c ∈ candidates ∧
      ((∃ pre post, candidates = pre ++ c :: post ∧ english c = true ∧
                    Forall (λ y, english y = false) pre) ∨
       (head candidates = Some c ∧
        Forall (λ y, english y = false) candidates))
  end.
Proof using Type.
  intros Hid Hglob. unfold download_vtt, bind. rewrite Hid, Hglob.
  destruct candidates as [|first rest]; [done|].
  destruct (List.find _ (first :: rest)) as [c|] eqn:Hfind; simpl.
  - apply find_Some_split in Hfind as (pre & post & Heq & Hc & Hpre).
    split; [done|].
    split; [rewrite Heq; apply elem_of_app; right; by left|].
    left. by exists pre, post.
  - apply find_None_Forall in Hfind. split; [done|].
    split; [by left | by right].
Qed.

(** X15: when the track read has no cue with a non-blank text,
    [save_transcript] raises the error of the empty transcript and has
    written nothing: the world is the one the read left. *)
Theorem save_transcript_empty_track (video base_name path : str) (ts : bool)
    (w w1 w2 : World) (cues : list Cue) :
  download video w = (w1, inr path) →
  webvtt_read path w1 = (w2, inr cues) →
  Forall (λ cue, Py.strip cue.(text) = []) cues →
  save video base_name ts w = (w2, inl empty_transcript_error).
Proof.
  intros Hdl Hread Hblank. unfold save_transcript, bind, lift.
  rewrite Hdl, Hread. unfold vtt_to_lines. rewrite foldl_vtt_step. simpl.
  by rewrite (proj2 (omap_cue_line_nil ts cues) Hblank).
Qed.

(** X16: once both files are written the run succeeds, whatever happens to
    the move of the track file: the paths returned are the absolute paths of
    the line file and of the paragraph file, named after the stem, and the
    track is reported at its new place or, when the move raised, at its old
    one. *)
Theorem save_transcript_after_writes (video base_name path : str) (ts : bool)
    (w w1 w2 w3 w4 : World) (cues : list Cue) (lines : list str) :
  let txt_path := path_join OUTPUT_DIR (file_stem base_name ++ lit ".txt") in
  let para_path :=
    path_join OUTPUT_DIR (file_stem base_name ++ lit "_paragraphs.txt") in
  download video w = (w1, inr path) →
  webvtt_read path w1 = (w2, inr cues) →
  vtt_to_lines cues ts = inr lines →
  write_text txt_path (Py.join ["010"%char] (clean_lines lines)) w2 =
    (w3, inr ()) →
  write_text para_path (paragraph (clean_lines lines)) w3 = (w4, inr ()) →
  ∃ w' vtt,
    save video base_name ts w =
      (w', inr (abspath txt_path, abspath para_path, abspath vtt)) ∧
    (vtt = path_join OUTPUT_DIR (basename path) ∨ vtt = abspath path).
Proof.
  intros txt_path para_path Hdl Hread Hlines Htxt Hpara.
  unfold save_transcript, bind, lift, try_except, ret.
  rewrite Hdl, Hread, Hlines.
  change (if truthy (splitext_root (basename base_name)) then _ else _)
    with (file_stem base_name).
  fold txt_path. rewrite Htxt. fold para_path. rewrite Hpara.
  case_bool_decide; [|eauto].
  destruct (shutil_move _ _ w4) as [w5 [e|[]]]; eauto.
Qed.

End Runs.

Lemma download_vtt_choice_witness :
  match download_vtt Demo.extract_info_id Demo.glob_sorted Demo.basename
          (lit "abc") [] with
  | (w', inl e) =>
      w' = [] ∧ [lit "abc.en.vtt"] = [] ∧
      e = FileNotFoundError
            (lit "No .vtt subtitle files were downloaded for this video.")
  | (w', inr c) =>
      w' = [] ∧ c ∈ [lit "abc.en.vtt"] ∧
      ((∃ pre post, [lit "abc.en.vtt"] = pre ++ c :: post ∧
                    english_name Demo.basename c = true ∧
                    Forall (λ y, english_name Demo.basename y = false) pre) ∨
       (head [lit "abc.en.vtt"] = Some c ∧
        Forall (λ y, english_name Demo.basename y = false)
          [lit "abc.en.vtt"]))
  end.
Proof.
  apply (download_vtt_choice Demo.extract_info_id Demo.glob_sorted
           Demo.basename (lit "abc") (lit "abc") [] [] []).
  - reflexivity.
  - reflexivity.
Defined.

Lemma save_transcript_empty_track_witness :
  save_transcript Demo.extract_info_id Demo.glob_sorted Silent.webvtt_read
    Demo.write_text Demo.shutil_move Demo.OUTPUT_DIR Demo.path_join
    Demo.basename Demo.splitext_root Demo.abspath
    (lit "abc") (lit "abc") false [] =
  ([], inl empty_transcript_error).
Proof.
  apply (save_transcript_empty_track
           Demo.extract_info_id Demo.glob_sorted Silent.webvtt_read
           Demo.write_text Demo.shutil_move Demo.OUTPUT_DIR Demo.path_join
           Demo.basename Demo.splitext_root Demo.abspath
           (lit "abc") (lit "abc") (lit "abc.en.vtt") false [] [] []
           [ {| start := lit "00:00:01.000"; text := lit "  " |} ]).
  - reflexivity.
  - reflexivity.
  - by repeat constructor.
Defined.

Lemma save_transcript_after_writes_witness :
  ∃ w' vtt,
    save_transcript Demo.extract_info_id Demo.glob_sorted Demo.webvtt_read
      Demo.write_text Demo.shutil_move Demo.OUTPUT_DIR Demo.path_join
      Demo.basename Demo.splitext_root Demo.abspath
      (lit "abc") (lit "abc") false [] =
      (w', inr (lit "/app/transcripts/abc.txt",
                lit "/app/transcripts/abc_paragraphs.txt",
                Demo.abspath vtt)) ∧
    (vtt = Demo.path_join Demo.OUTPUT_DIR (Demo.basename (lit "abc.en.vtt")) ∨
     vtt = Demo.abspath (lit "abc.en.vtt")).
Proof.
  apply (save_transcript_after_writes
           Demo.extract_info_id Demo.glob_sorted Demo.webvtt_read
           Demo.write_text Demo.shutil_move Demo.OUTPUT_DIR Demo.path_join
           Demo.basename Demo.splitext_root Demo.abspath
           (lit "abc") (lit "abc") (lit "abc.en.vtt") false [] [] []
           [(lit "transcripts/abc.txt", lit "hello")]
           [(lit "transcripts/abc.txt", lit "hello");
            (lit "transcripts/abc_paragraphs.txt", lit "hello")]
           [ {| start := lit "00:00:01.500"; text := lit "hello" |} ]
           [lit "hello"]); reflexivity.
Defined.

(** ** The batch form *)

Lemma is_linebreak_isspace (c : ascii) :
  Py.is_linebreak c = true → Py.isspace c = true.
Proof.
  destruct c as [[] [] [] [] [] [] [] []]; vm_compute; congruence.
Qed.

Lemma splitlines_from_Forall (P : ascii → Prop) (s cur : str) (f : bool) :
  (∀ c, Py.is_linebreak c = true → P c) →
  Forall (Forall P) (Py.splitlines_from cur f s) ↔ Forall P (cur ++ s).
Proof.
  intros Hbreak. revert cur f.
  induction s as [|c s IH]; intros cur f; simpl.
  - rewrite app_nil_r. destruct cur as [|a cur]; [by split|].
    split; [by intros [? _]%Forall_cons | intros ?; by constructor].
  - rewrite Forall_app, Forall_cons.
    destruct (f && bool_decide (c = "010"%char)) eqn:Hskip.
    + apply andb_true_iff in Hskip as [_ ->%bool_decide_eq_true].
      rewrite IH, Forall_app. pose proof (Hbreak "010"%char eq_refl). tauto.
    + destruct (Py.is_linebreak c) eqn:Hc; lazy beta iota.
      * split.
        -- intros [Hcur Hrest]%Forall_cons. apply IH in Hrest.
           auto using Hbreak.
        -- intros (Hcur & _ & Hs). constructor; [done | by apply IH].
      * rewrite IH, <- app_assoc, Forall_app. simpl. rewrite Forall_cons.
        tauto.
Qed.

Lemma splitlines_from_no_break (s cur : str) (f : bool) :
  Forall (λ c, Py.is_linebreak c = false) cur →
  Forall (Forall (λ c, Py.is_linebreak c = false))
    (Py.splitlines_from cur f s).
Proof.
  revert cur f. induction s as [|c s IH]; intros cur f Hcur; simpl.
  - destruct cur; [done | by constructor].
  - destruct (f && bool_decide (c = "010"%char)); [by apply IH|].
    destruct (Py.is_linebreak c) eqn:Hc.
    + constructor; [done | by apply IH].
    + apply IH, Forall_app. by repeat constructor.
Qed.

Lemma lstrip_elem_of (c : ascii) (s : str) : c ∈ Py.lstrip s → c ∈ s.
Proof.
  induction s as [|x s IH]; simpl; [done|].
  destruct (Py.isspace x); [|done]. intros Hc. right. by apply IH.
Qed.

Lemma strip_elem_of (c : ascii) (s : str) : c ∈ Py.strip s → c ∈ s.
Proof.
  unfold Py.strip, Py.rstrip. rewrite elem_of_reverse.
  intros Hc%lstrip_elem_of. rewrite elem_of_reverse in Hc.
  by apply lstrip_elem_of.
Qed.

Lemma strip_nil_iff (s : str) :
  Py.strip s = [] ↔ Forall (λ c, Py.isspace c = true) s.
Proof.
  split.
  - intros Hs. by apply lstrip_nil_spaces, strip_nil_lstrip.
  - intros Hs. unfold Py.strip.
    rewrite <- (app_nil_r s), lstrip_app_spaces by done. done.
Qed.

Lemma batch_entries_nil (batch_input : str) :
  batch_entries batch_input = [] ↔
  Forall (λ c, Py.isspace c = true) batch_input.
Proof.
  unfold batch_entries, Py.splitlines.
  rewrite fmap_nil_iff, filter_nil_Forall.
  rewrite <- (splitlines_from_Forall _ batch_input [] false)
    by apply is_linebreak_isspace.
  apply Forall_proper; [|done]. intros piece.
  by rewrite truthy_false, strip_nil_iff.
Qed.

(** X17: the batch form yields no reference exactly when all it holds is
    whitespace. *)
Theorem batch_entries_nil_iff (batch_input : str) :
  batch_entries batch_input = [] ↔
  Forall (λ c, Py.isspace c = true) batch_input.
Proof. apply batch_entries_nil. Qed.

(** X18: every reference taken from the batch form is trimmed, not empty and
    holds no line boundary. *)
Theorem batch_entries_clean (batch_input entry : str) :
  entry ∈ batch_entries batch_input →
  Py.strip entry = entry ∧ entry ≠ [] ∧
  Forall (λ c, Py.is_linebreak c = false) entry.
Proof.
  unfold batch_entries.
  intros (piece & -> & [Htruthy Hpiece]%list_elem_of_filter)%list_elem_of_fmap.
  split; [apply strip_idemp|]. split; [by destruct (Py.strip piece)|].
  apply Forall_forall. intros c Hc%strip_elem_of.
  pose proof (splitlines_from_no_break batch_input [] false (Forall_nil_2 _))
    as Hall.
  by apply (proj1 (Forall_forall _ _)
              (proj1 (Forall_forall _ _) Hall piece Hpiece)).
Qed.

Lemma batch_entries_clean_witness :
  Py.strip (lit "abc") = lit "abc" ∧ lit "abc" ≠ [] ∧
  Forall (λ c, Py.is_linebreak c = false) (lit "abc").
Proof.
  apply (batch_entries_clean
           (lit " abc " ++ ["013"; "010"; "010"]%char ++ lit "  def")).
  assert (batch_entries
            (lit " abc " ++ ["013"; "010"; "010"]%char ++ lit "  def") =
          [lit "abc"; lit "def"]) as -> by (vm_compute; reflexivity).
  by left.
Defined.

(** X19: pressing Run batch on a form with nothing but whitespace shows the
    request for a reference and leaves the world as it is; on any other form
    it returns one row per reference of the form, in their order. *)
Theorem run_batch_rows {World : Type}
    (extract_info_id : str → @M World str)
    (glob_sorted : str → @M World (list str))
    (webvtt_read : str → @M World (list Cue))
    (write_text : str → str → @M World unit)
    (shutil_move : str → str → @M World unit)
    (OUTPUT_DIR : str) (path_join : str → str → str)
    (basename splitext_root abspath : str → str)
    (batch_input : str) (batch_ts : bool) (w : World) :
  match run_batch extract_info_id glob_sorted webvtt_read write_text
          shutil_move OUTPUT_DIR path_join basename splitext_root abspath
          batch_input batch_ts w with
  | (w', inl message) =>
      w' = w ∧ message = lit "Please paste at least one URL/ID." ∧
      Forall (λ c, Py.isspace c = true) batch_input
  | (_, inr rows) =>
      row_item <$> rows = batch_entries batch_input ∧
      ¬ Forall (λ c, Py.isspace c = true) batch_input
  end.
Proof.
  unfold run_batch.
  destruct (batch_entries batch_input) as [|entry entries] eqn:Hentries.
  - simpl. split; [done|]. split; [done|]. by apply batch_entries_nil.
  - simpl. split; [apply batch_loop_items|].
    intros Hall%batch_entries_nil. congruence.
Qed.

(** ** The password gate *)

Lemma check_password_cases (session_state : gmap string bool)
    (secrets : gmap string Secret) (form : LoginForm) :
  let r := check_password session_state secrets form in
  (authenticated session_state ∧ r.1.1 = session_state ∧
   r.2 = Return true) ∨
  (¬ authenticated session_state ∧ unlocks secrets form ∧
   authenticated r.1.1 ∧ r.2 = RerunScript) ∨
  (¬ authenticated session_state ∧ ¬ unlocks secrets form ∧
   r.1.1 = session_state ∧ r.2 = Return false).
Proof.
  unfold check_password, authenticated, unlocks. simpl.
  case_bool_decide as Hauth; [by left|]. right.
  destruct (unlock form) eqn:Hunlock; [|right; by intuition].
  destruct (secrets !! "APP_PASSWORD"%string) as [required|] eqn:Hreq;
    [|right; by intuition].
  case_bool_decide as Hpw.
  - left. subst required. simpl. repeat split; try done.
    apply lookup_insert_eq.
  - right. simpl. repeat split; try done. intros [_ [= ?]]. congruence.
Qed.

Section Login.

Variable body : gmap string bool → gmap string bool.
Variable secrets : gmap string Secret.

(** The rest of the script never writes the key of the gate. *)
Hypothesis body_keeps_auth :
  ∀ s, body s !! "auth_ok"%string = s !! "auth_ok"%string.

Local Abbreviation run := (script_run body secrets).
Local Abbreviation runs := (script_runs body secrets).

Lemma script_run_cases (session_state : gmap string bool) (form : LoginForm) :
  (authenticated session_state ∧ authenticated (run session_state form).1 ∧
   (run session_state form).2 = Shown) ∨
  (¬ authenticated session_state ∧ unlocks secrets form ∧
   authenticated (run session_state form).1 ∧
   (run session_state form).2 = Rerunning) ∨
  (¬ authenticated session_state ∧ ¬ unlocks secrets form ∧
   ¬ authenticated (run session_state form).1 ∧
   (run session_state form).2 = Stopped).
Proof using body_keeps_auth.
  unfold script_run.
  destruct (check_password_cases session_state secrets form)
    as [(Ha & Hs & Hr)|[(Ha & Hu & Hs & Hr)|(Ha & Hu & Hs & Hr)]];
    destruct (check_password session_state secrets form) as [[s' msgs] c];
    simpl in *; subst; simpl.
  - left. unfold authenticated. by rewrite body_keeps_auth.
  - right. left. done.
  - right. right. done.
Qed.

Lemma script_runs_snoc (forms : list LoginForm) (form : LoginForm)
    (session_state : gmap string bool) :
  runs (forms ++ [form]) session_state =
    ((run (runs forms session_state).1 form).1,
     (runs forms session_state).2 ++
       [(run (runs forms session_state).1 form).2]).
Proof using Type. unfold script_runs. by rewrite foldl_snoc. Qed.

Lemma script_runs_unlocked (forms : list LoginForm)
    (session_state : gmap string bool) :
  authenticated (runs forms session_state).1 ∨
  Shown ∈ (runs forms session_state).2 ∨
  Rerunning ∈ (runs forms session_state).2 →
  authenticated session_state ∨
  ∃ form, form ∈ forms ∧ unlocks secrets form.
Proof using body_keeps_auth.
  induction forms as [|form forms IH] using rev_ind.
  - intros [?|[Hin|Hin]]; [by left|by apply elem_of_nil in Hin..].
  - rewrite script_runs_snoc. simpl.
    assert (authenticated (runs forms session_state).1 →
            authenticated session_state ∨
            ∃ f, f ∈ forms ++ [form] ∧ unlocks secrets f) as Hprev.
    { intros Ha. destruct IH as [?|(f & Hf & Hu)]; [by left|by left|].
      right. exists f. split; [|done]. apply elem_of_app. by left. }
    assert ((∃ f, f ∈ forms ∧ unlocks secrets f) →
            ∃ f, f ∈ forms ++ [form] ∧ unlocks secrets f) as Hmono.
    { intros (f & Hf & Hu). exists f. split; [|done].
      apply elem_of_app. by left. }
    destruct (script_run_cases (runs forms session_state).1 form)
      as [(Ha & _)|[(_ & Hu & _)|(Hna & _ & Hna' & Hend)]].
    + intros _. by apply Hprev.
    + intros _. right. exists form. split; [|done].
      apply elem_of_app. right. by left.
    + rewrite Hend. intros [?|[Hin|Hin]]; [done|..].
      * apply elem_of_app in Hin as [Hin|Hin%list_elem_of_singleton]; [|done].
        destruct IH as [?|?]; auto.
      * apply elem_of_app in Hin as [Hin|Hin%list_elem_of_singleton]; [|done].
        destruct IH as [?|?]; auto.
Qed.

(** X20: in a session that starts unauthenticated the application is shown
    in some run only if the configured password was submitted in one of the
    runs; without a configured password it is never shown. *)
Theorem gate_safety (forms : list LoginForm)
    (session_state : gmap string bool) :
  ¬ authenticated session_state →
  Shown ∈ (runs forms session_state).2 →
  ∃ form, form ∈ forms ∧ form.(unlock) = true ∧
          secrets !! "APP_PASSWORD"%string = Some (SecretStr form.(pw)).
Proof using body_keeps_auth.
  intros Hna Hshown.
  destruct (script_runs_unlocked forms session_state) as [?|(f & Hf & Hu & Hp)];
    [auto | done | eauto].
Qed.

Lemma script_runs_authenticated (forms : list LoginForm)
    (session_state : gmap string bool) :
  authenticated session_state →
  authenticated (runs forms session_state).1 ∧
  (runs forms session_state).2 = replicate (length forms) Shown.
Proof using body_keeps_auth.
  intros Ha. induction forms as [|form forms [IHa IHends]] using rev_ind;
    [done|].
  rewrite script_runs_snoc. simpl.
  destruct (script_run_cases (runs forms session_state).1 form)
    as [(_ & Ha' & Hend)|[(Hna & _)|(Hna & _)]]; [|done..].
  split; [done|]. rewrite Hend, IHends, length_app. simpl.
  by rewrite Nat.add_1_r, replicate_S_end.
Qed.

Lemma script_runs_from (forms : list LoginForm)
    (session_state : gmap string bool) (ends : list RunEnd) :
  foldl (λ acc form, let r := run acc.1 form in (r.1, acc.2 ++ [r.2]))
        (session_state, ends) forms =
    ((runs forms session_state).1, ends ++ (runs forms session_state).2).
Proof using Type.
  revert session_state ends.
  induction forms as [|f forms IH]; intros session_state ends.
  - simpl. by rewrite app_nil_r.
  - unfold script_runs. simpl. rewrite !IH. simpl. by rewrite <- app_assoc.
Qed.

Lemma script_runs_cons (form : LoginForm) (forms : list LoginForm)
    (session_state : gmap string bool) :
  (runs (form :: forms) session_state).2 =
    (run session_state form).2 :: (runs forms (run session_state form).1).2.
Proof using Type.
  unfold script_runs at 1. simpl. by rewrite script_runs_from.
Qed.

(** X21: the run in which the configured password is submitted ends in a
    rerun and authenticates the session for good: every later run shows the
    application, whatever is typed. *)
Theorem gate_unlock_persists (form : LoginForm) (later : list LoginForm)
    (session_state : gmap string bool) :
  ¬ authenticated session_state →
  form.(unlock) = true →
  secrets !! "APP_PASSWORD"%string = Some (SecretStr form.(pw)) →
  (runs (form :: later) session_state).2 =
    Rerunning :: replicate (length later) Shown.
Proof using body_keeps_auth.
  intros Hna Hunlock Hpw. rewrite script_runs_cons.
  destruct (script_run_cases session_state form)
    as [(Ha & _)|[(_ & _ & Ha & ->)|(_ & Hnu & _)]]; [done| |].
  - f_equal. by apply script_runs_authenticated.
  - by destruct Hnu.
Qed.

End Login.

Lemma visit_body_keeps_auth (s : gmap string bool) :
  Visit.body s !! "auth_ok"%string = s !! "auth_ok"%string.
Proof. unfold Visit.body. by rewrite lookup_insert_ne. Qed.

Lemma gate_safety_witness :
  ∃ form, form ∈ [Visit.wrong; Visit.right; Visit.idle] ∧
          form.(unlock) = true ∧
          Visit.secrets !! "APP_PASSWORD"%string = Some (SecretStr form.(pw)).
Proof.
  apply (gate_safety Visit.body Visit.secrets visit_body_keeps_auth
           [Visit.wrong; Visit.right; Visit.idle] ∅).
  - unfold authenticated. by rewrite lookup_empty.
  - assert ((script_runs Visit.body Visit.secrets
               [Visit.wrong; Visit.right; Visit.idle] ∅).2 =
            [Stopped; Rerunning; Shown]) as -> by (vm_compute; reflexivity).
    right. right. left.
Defined.

Lemma gate_unlock_persists_witness :
  (script_runs Visit.body Visit.secrets
     (Visit.right :: [Visit.wrong; Visit.idle]) ∅).2 =
    Rerunning :: replicate (length [Visit.wrong; Visit.idle]) Shown.
Proof.
  apply (gate_unlock_persists Visit.body Visit.secrets visit_body_keeps_auth
           Visit.right [Visit.wrong; Visit.idle] ∅).
  - unfold authenticated. by rewrite lookup_empty.
  - reflexivity.
  - reflexivity.
Defined.

(** ** The name of the notes file *)

Lemma endswith_spec (s suffix : str) :
  Py.endswith s suffix = true ↔ ∃ init, s = init ++ suffix.
Proof.
  unfold Py.endswith. rewrite bool_decide_eq_true. split.
  - set (k := length s - length suffix). intros Hdrop. exists (take k s).
    by rewrite <- Hdrop, take_drop.
  - intros [init ->]. rewrite length_app.
    replace (length init + length suffix - length suffix) with (length init)
      by lia.
    apply drop_app_length.
Qed.

Lemma replace_str_from_skip (old new a b : str) :
  Py.replace_str_from old new (length a) (a ++ b) =
  Py.replace_str_from old new 0 b.
Proof. induction a as [|c a IH]; [by destruct b | done]. Qed.

Lemma replace_str_from_match (old new rest : str) :
  old ≠ [] →
  Py.replace_str_from old new 0 (old ++ rest) =
  new ++ Py.replace_str_from old new 0 rest.
Proof.
  intros Hold. destruct old as [|c old]; [done|].
  change ((c :: old) ++ rest) with (c :: (old ++ rest)).
  cbn [Py.replace_str_from].
  rewrite (proj2 (startswith_spec (c :: old ++ rest) (c :: old)))
    by (by exists rest).
  by rewrite <- (replace_str_from_skip (c :: old) new old rest).
Qed.

(** No occurrence of the suffix of the paragraph files overlaps another. *)
Lemma paragraphs_suffix_no_overlap (d : nat) :
  0 < d < length paragraphs_suffix →
  Py.startswith paragraphs_suffix (drop d paragraphs_suffix) = false.
Proof.
  intros [Hpos Hlt].
  do 15 (destruct d as [|d]; [by (lia || vm_compute)|]).
  vm_compute in Hlt. lia.
Qed.

Lemma replace_paragraphs_suffix (init : str) :
  ∃ init', Py.replace_str_from paragraphs_suffix notes_suffix 0
             (init ++ paragraphs_suffix) = init' ++ notes_suffix.
Proof.
  remember (length init) as n eqn:Hn. revert init Hn.
  induction n as [n IH] using lt_wf_ind. intros init ->.
  destruct (Py.startswith (init ++ paragraphs_suffix) paragraphs_suffix)
    eqn:Hstart.
  - apply startswith_spec in Hstart as [rest Hrest].
    destruct (decide (length init < length paragraphs_suffix)) as [Hlt|Hge].
    + destruct init as [|c init].
      { exists [].
        change ([] ++ paragraphs_suffix) with (paragraphs_suffix ++ []).
        by rewrite replace_str_from_match, app_nil_r. }
      exfalso.
      pose proof (paragraphs_suffix_no_overlap (length (c :: init))) as Hno.
      rewrite (proj2 (startswith_spec _ _)) in Hno.
      * assert (true = false) as Habs by (apply Hno; simpl in *; lia).
        done.
      * exists rest.
        apply (f_equal (drop (length (c :: init)))) in Hrest.
        rewrite drop_app_length in Hrest.
        by rewrite drop_app_le in Hrest by lia.
    + assert (∃ init2, init = paragraphs_suffix ++ init2) as [init2 ->].
      { exists (drop (length paragraphs_suffix) init).
        apply (f_equal (take (length paragraphs_suffix))) in Hrest.
        rewrite take_app_length, take_app_le in Hrest by lia.
        rewrite <- Hrest at 1. by rewrite take_drop. }
      rewrite <- app_assoc, replace_str_from_match by done.
      destruct (IH (length init2)) with (init := init2) as [init' ->];
        [rewrite length_app; vm_compute; lia | done |].
      exists (notes_suffix ++ init'). by rewrite app_assoc.
  - destruct init as [|c init].
    { rewrite (proj2 (startswith_spec _ _)) in Hstart; [done|].
      by exists []. }
    change ((c :: init) ++ paragraphs_suffix)
      with (c :: (init ++ paragraphs_suffix)) in *.
    cbn [Py.replace_str_from]. rewrite Hstart.
    destruct (IH (length init)) with (init := init) as [init' ->];
      [simpl; lia | done |].
    by exists (c :: init').
Qed.

Lemma notes_name_unfold (choice : str) :
  notes_name choice =
    Py.replace_str_from paragraphs_suffix notes_suffix 0 choice.
Proof. done. Qed.

(** X22: for a file offered for a summary, whose name ends in
    [_paragraphs.txt], the notes are written under a name that ends in
    [_notes.txt]: never over a paragraph file, the one summarised
    included. *)
Theorem notes_name_not_paragraphs (listing : list str) (choice : str) :
  choice ∈ para_files listing →
  Py.endswith (notes_name choice) notes_suffix = true ∧
  Py.endswith (notes_name choice) paragraphs_suffix = false ∧
  notes_name choice ∉ para_files listing.
Proof.
  intros [[init ->]%endswith_spec _]%list_elem_of_filter.
  change (lit "_paragraphs.txt") with paragraphs_suffix.
  destruct (replace_paragraphs_suffix init) as [init' Hnotes].
  rewrite <- notes_name_unfold in Hnotes.
  assert (Py.endswith (notes_name (init ++ paragraphs_suffix))
            paragraphs_suffix = false) as Hnot.
  { rewrite Hnotes.
    destruct (Py.endswith _ paragraphs_suffix) eqn:Hend; [|done].
    apply endswith_spec in Hend as [init2 Hend].
    apply (f_equal reverse) in Hend. rewrite !reverse_app in Hend.
    apply (f_equal (take (length notes_suffix))) in Hend.
    rewrite take_app_le in Hend by (by vm_compute; lia).
    rewrite (take_app_le (reverse paragraphs_suffix)) in Hend
      by (by vm_compute; lia).
    by vm_compute in Hend. }
  split; [|split; [done|]].
  - apply endswith_spec. exists init'. exact Hnotes.
  - intros [Hend _]%list_elem_of_filter.
    change (lit "_paragraphs.txt") with paragraphs_suffix in Hend.
    congruence.
Qed.

Lemma notes_name_not_paragraphs_witness :
  Py.endswith (notes_name (lit "abc_paragraphs.txt")) notes_suffix = true ∧
  Py.endswith (notes_name (lit "abc_paragraphs.txt")) paragraphs_suffix
    = false ∧
  notes_name (lit "abc_paragraphs.txt") ∉
    para_files [lit "abc.txt"; lit "abc_paragraphs.txt"].
Proof.
  apply (notes_name_not_paragraphs [lit "abc.txt"; lit "abc_paragraphs.txt"]).
  assert (para_files [lit "abc.txt"; lit "abc_paragraphs.txt"] =
          [lit "abc_paragraphs.txt"]) as -> by (vm_compute; reflexivity).
  by left.
Defined.

(** ** The text sent for a summary *)




(** ** Cleaning again and again *)

Lemma clean_lines_cleaned_shape (lines : list str) :
  cleaned_shape (clean_lines lines).
Proof. split; [apply clean_lines_trimmed | apply clean_lines_not_in_prev]. Qed.

Lemma clean_lines_length (lines : list str) :
  length (clean_lines lines) ≤ length lines.
Proof.
  etrans; [apply (sublist_length _ _ (clean_lines_sublist_exact lines))|].
  etrans; [apply (sublist_length _ _ (exact_lines_sublist lines))|].
  by rewrite length_fmap.
Qed.

(** Cleaning a cleaned list returns it or a shorter one. *)
Lemma clean_lines_fixed_or_shorter (ys : list str) :
  cleaned_shape ys →
  clean_lines ys = ys ∨ length (clean_lines ys) < length ys.
Proof.
  intros [Htrim Hadj].
  destruct (decide (length (clean_lines ys) = length ys)) as [Hlen|Hlen].
  - left. unfold clean_lines in *.
    rewrite exact_lines_fixed in *; try done;
      try (by eapply adjacent_impl; [apply not_in_prev_ne|]).
    apply (foldl_clean_step_fixed ys []). simpl.
    by apply (foldl_clean_step_full ys []).
  - right. pose proof (clean_lines_length ys). lia.
Qed.

Lemma iter_clean_lines_fixed (n : nat) (ys : list str) :
  clean_lines ys = ys → Nat.iter n clean_lines ys = ys.
Proof. intros Hfix. induction n as [|n IH]; [done|]. simpl. congruence. Qed.

Lemma iter_clean_lines_stable (n : nat) (ys : list str) :
  cleaned_shape ys → length ys ≤ n →
  clean_lines (Nat.iter n clean_lines ys) = Nat.iter n clean_lines ys.
Proof.
  revert ys. induction n as [|n IH]; intros ys Hshape Hlen.
  - destruct ys; [done | simpl in Hlen; lia].
  - destruct (clean_lines_fixed_or_shorter ys Hshape) as [Hfix|Hshort].
    + by rewrite !iter_clean_lines_fixed.
    + rewrite Nat.iter_succ_r. apply IH; [apply clean_lines_cleaned_shape|lia].
Qed.

(** X24: cleaning again and again comes to rest: after at most one run more
    than there are lines, a further run of [clean_lines] changes nothing. *)
Theorem clean_lines_stabilises (lines : list str) :
  let rested := Nat.iter (S (length lines)) clean_lines lines in
  clean_lines rested = rested.
Proof.
  cbv zeta. rewrite Nat.iter_succ_r.
  apply iter_clean_lines_stable; [apply clean_lines_cleaned_shape|].
  apply clean_lines_length.
Qed.
